(** * Session store and chat session of the Gemini workspace

    A shallow embedding of [utils/storage_manager.py] and
    [utils/gemini_manager.py] (the [gemini-x] variants, which extend the
    top-level ones with [clear_storage], [change_model] and
    [send_prompt_with_image]).

    Python values are modelled as follows.
    - a [str] is, in general, the list of its code points: the type [str].
      The roles and contents of turns, the keys and values of the stored
      dictionaries and the prompts are of that type, so that they range
      over every Python string, surrogates included.
    - [bytes], and the [str] values that name things or come from the
      terminal, the window or the model (conversation identifiers, blob
      names, model identifiers, messages, lines typed, answers), are
      [string]; every [ascii] stands for one byte, resp. for one code
      point in the range 0..255.  [wide], a coercion, takes such a string
      to its [str].
    - [int] is [Z]; [len] of a list is [Z.of_nat (length _)].
    - a [dict] with [str] keys and [str] values is an insertion-ordered
      association list.
    - a method is a computation in the monad [Py S], which threads the state
      [S] of the outside world (and of [self]) and may raise an exception.
      State changes made before an exception is raised persist, as in
      Python. *)

From Stdlib Require Import ZArith Ascii String List.
From stdpp Require Import base tactics option list sorting gmap strings pretty.

Local Open Scope Z_scope.

(** ** Exceptions and the [Py] monad *)

(** The exception classes that cross the modelled code.  All of them derive
    from [Exception]; [str(e)] is the message. *)
Inductive exn : Type :=
  | GoogleCloudError (msg : string)
  | NotFound (msg : string)
  | JSONDecodeError (msg : string)
  | ValueError (msg : string)
  | VertexAIError (msg : string).

Definition str_exn (e : exn) : string :=
  match e with
  | GoogleCloudError m | NotFound m | JSONDecodeError m
  | ValueError m | VertexAIError m => m
  end.

Inductive result (A : Type) : Type :=
  | Ok (a : A)
  | Raise (e : exn).
Arguments Ok {A} a.
Arguments Raise {A} e.

Definition Py (S A : Type) : Type := S → result A * S.

Global Instance Py_ret {S} : MRet (Py S) := λ A a s, (Ok a, s).
Global Instance Py_bind {S} : MBind (Py S) := λ A B f m s,
  match m s with
  | (Ok a, s') => f a s'
  | (Raise e, s') => (Raise e, s')
  end.

Definition raise {S A} (e : exn) : Py S A := λ s, (Raise e, s).
Definition gets {S A} (f : S → A) : Py S A := λ s, (Ok (f s), s).
Definition modify {S} (f : S → S) : Py S unit := λ s, (Ok tt, f s).

(** [try: body / except Exception as e: handler e]. *)
Definition try_except {S A} (body : Py S A) (handler : exn → Py S A) : Py S A :=
  λ s, match body s with
       | (Ok a, s') => (Ok a, s')
       | (Raise e, s') => handler e s'
       end.

(** [for x in xs: body x]. *)
Fixpoint for_each {S A} (xs : list A) (body : A → Py S unit) : Py S unit :=
  match xs with
  | [] => mret tt
  | x :: xs' => body x ;; for_each xs' body
  end.

(** Python's [len]. *)
Definition len {A} (l : list A) : Z := Z.of_nat (length l).

(** Formatting of an [int] inside an f-string. *)
Definition format_int (n : Z) : string := pretty n.

(** [k.startswith(p)]. *)
Definition startswith (p k : string) : bool := String.prefix p k.

(** ** Python strings *)

(** A [str]: its code points, each in 0..0x10FFFF. *)
Definition str : Type := list N.

(** The [str] of a string over code points 0..255. *)
Definition wide (s : string) : str := N_of_ascii <$> list_ascii_of_string s.
Coercion wide : string >-> str.

(** [a == b] on [str]. *)
Fixpoint str_eqb (a b : str) : bool :=
  match a, b with
  | [], [] => true
  | x :: a', y :: b' => (x =? y)%N && str_eqb a' b'
  | _, _ => false
  end.

(** ** The [json] module on the payloads of the store

    [save_interaction] serialises a dictionary whose keys and values are
    strings, with the default settings of [json.dumps]
    ([ensure_ascii=True], separators [", "] and [": "]): the text written
    is ASCII.  [json_dumps] is that function on such dictionaries;
    [json_loads] is [json.loads] (strict mode) on the texts of the same
    form: an ASCII text that holds one object whose values are strings. *)

Definition dict : Type := list (str * str).

(** [d[k] = v] on an insertion-ordered dictionary. *)
Fixpoint dict_set (k v : str) (d : dict) : dict :=
  match d with
  | [] => [(k, v)]
  | (k', v') :: d' =>
      if str_eqb k k' then (k', v) :: d' else (k', v') :: dict_set k v d'
  end.

(** [d.get(k)]. *)
Fixpoint dict_get (k : str) (d : dict) : option str :=
  match d with
  | [] => None
  | (k', v') :: d' => if str_eqb k k' then Some v' else dict_get k d'
  end.

Definition dquote : ascii := "034"%char.
Definition backslash : ascii := "092"%char.

Definition hex_digit (n : N) : ascii :=
  match n with
  | 0 => "0" | 1 => "1" | 2 => "2" | 3 => "3" | 4 => "4" | 5 => "5"
  | 6 => "6" | 7 => "7" | 8 => "8" | 9 => "9" | 10 => "a" | 11 => "b"
  | 12 => "c" | 13 => "d" | 14 => "e" | _ => "f"
  end%N%char.

(** ['\\u{0:04x}'.format(n)], for [n] below 0x10000. *)
Definition u_escape (n : N) : string :=
  String backslash
    (String "u"
       (String (hex_digit (n / 4096))
          (String (hex_digit ((n / 256) mod 16))
             (String (hex_digit ((n / 16) mod 16))
                (String (hex_digit (n mod 16)) ""))))).

(** The replacement of one character by [py_encode_basestring_ascii]:
    the seven short escapes of [ESCAPE_DCT], the printable ASCII range
    [' '..'~'] unchanged, [\uxxxx] (lower-case hexadecimal) for every other
    code point below 0x10000, and the two escapes of its surrogate pair
    for a code point from 0x10000 on. *)
Definition escape_char (n : N) : string :=
  if (n =? 92)%N then String backslash (String backslash "")
  else if (n =? 34)%N then String backslash (String dquote "")
  else if (n =? 8)%N then String backslash "b"
  else if (n =? 12)%N then String backslash "f"
  else if (n =? 10)%N then String backslash "n"
  else if (n =? 13)%N then String backslash "r"
  else if (n =? 9)%N then String backslash "t"
  else if ((32 <=? n) && (n <=? 126))%N then String (ascii_of_N n) ""
  else if (n <? 0x10000)%N then u_escape n
  else
    let v := (n - 0x10000)%N in
    u_escape (N.lor 0xd800 (N.land (N.shiftr v 10) 0x3ff))
    +:+ u_escape (N.lor 0xdc00 (N.land v 0x3ff)).

Fixpoint escape (s : str) : string :=
  match s with
  | [] => ""
  | c :: s' => escape_char c +:+ escape s'
  end.

Definition json_string (s : str) : string :=
  String dquote (escape s +:+ String dquote "").

Definition json_member (kv : str * str) : string :=
  json_string kv.1 +:+ ": " +:+ json_string kv.2.

Fixpoint json_members (d : dict) : string :=
  match d with
  | [] => ""
  | [kv] => json_member kv
  | kv :: d' => json_member kv +:+ ", " +:+ json_members d'
  end.

Definition json_dumps (d : dict) : string := "{" +:+ json_members d +:+ "}".

(** Decoding. *)

Definition hex_value (c : ascii) : option N :=
  let n := N_of_ascii c in
  if ((48 <=? n) && (n <=? 57))%N then Some (n - 48)%N
  else if ((97 <=? n) && (n <=? 102))%N then Some (n - 87)%N
  else if ((65 <=? n) && (n <=? 70))%N then Some (n - 55)%N
  else None.

(** [_decode_uXXXX]: the value of four hexadecimal digits. *)
Definition decode_uXXXX (a b c d : ascii) : option N :=
  match hex_value a, hex_value b, hex_value c, hex_value d with
  | Some x, Some y, Some z, Some w => Some (4096 * x + 256 * y + 16 * z + w)%N
  | _, _, _, _ => None
  end.

(** [BACKSLASH] of [json.decoder]. *)
Definition unescape (c : ascii) : option N :=
  let n := N_of_ascii c in
  if (n =? 34)%N then Some 34%N
  else if (n =? 92)%N then Some 92%N
  else if (n =? 47)%N then Some 47%N
  else if (n =? 98)%N then Some 8%N
  else if (n =? 102)%N then Some 12%N
  else if (n =? 110)%N then Some 10%N
  else if (n =? 114)%N then Some 13%N
  else if (n =? 116)%N then Some 9%N
  else None.

Definition cons_fst (c : N) (r : option (str * string)) : option (str * string) :=
  match r with
  | Some (v, rest) => Some (c :: v, rest)
  | None => None
  end.

(** The two halves of a surrogate pair, and the code point they stand
    for. *)
Definition is_high (n : N) : bool := ((0xd800 <=? n) && (n <=? 0xdbff))%N.
Definition is_low (n : N) : bool := ((0xdc00 <=? n) && (n <=? 0xdfff))%N.
Definition join (hi lo : N) : N :=
  (0x10000 + N.lor (N.shiftl (hi - 0xd800) 10) (lo - 0xdc00))%N.

(** [scanstring], started just after the opening quote: the decoded string
    and the text after the closing quote.  A [\uXXXX] escape of a high
    surrogate that is followed by the escape of a low surrogate is decoded
    together with it, to one code point.  A control character, an invalid
    escape or a missing closing quote is an error.  A byte above 127
    belongs to a multi-byte sequence, which [json.dumps] does not write
    with its default settings: such a text lies outside this model and is
    answered as an error. *)
Fixpoint scanstring (s : string) : option (str * string) :=
  match s with
  | "" => None
  | String c rest =>
      let n := N_of_ascii c in
      if (n =? 34)%N then Some ([], rest)
      else if (n =? 92)%N then
        match rest with
        | "" => None
        | String e rest1 =>
            if (N_of_ascii e =? 117)%N then
              match rest1 with
              | String h1 (String h2 (String h3 (String h4 rest2))) =>
                  match decode_uXXXX h1 h2 h3 h4 with
                  | Some uni =>
                      if is_high uni then
                        match rest2 with
                        | String b (String u
                            (String g1 (String g2 (String g3 (String g4 rest3))))) =>
                            if Ascii.eqb b backslash && Ascii.eqb u "u" then
                              match decode_uXXXX g1 g2 g3 g4 with
                              | Some uni2 =>
                                  if is_low uni2
                                  then cons_fst (join uni uni2) (scanstring rest3)
                                  else cons_fst uni (scanstring rest2)
                              | None => None
                              end
                            else cons_fst uni (scanstring rest2)
                        | _ => cons_fst uni (scanstring rest2)
                        end
                      else cons_fst uni (scanstring rest2)
                  | None => None
                  end
              | _ => None
              end
            else
              match unescape e with
              | Some u => cons_fst u (scanstring rest1)
              | None => None
              end
        end
      else if ((n <? 32) || (127 <? n))%N then None
      else cons_fst n (scanstring rest)
  end.

(** [WHITESPACE] of [json.decoder]: space, tab, line feed, carriage
    return. *)
Definition is_ws (c : ascii) : bool :=
  let n := N_of_ascii c in ((n =? 32) || (n =? 9) || (n =? 10) || (n =? 13))%N.

Fixpoint skip_ws (s : string) : string :=
  match s with
  | "" => ""
  | String c rest => if is_ws c then skip_ws rest else s
  end.

(** The member loop of [JSONObject], started just after the opening quote
    of a key.  Every round consumes at least one character, so the length
    of the text bounds the number of rounds. *)
Fixpoint parse_members (fuel : nat) (s : string) (acc : dict) : option (dict * string) :=
  match fuel with
  | O => None
  | S fuel' =>
      match scanstring s with
      | None => None
      | Some (key, s1) =>
          match skip_ws s1 with
          | String ":" s2 =>
              match skip_ws s2 with
              | String q s3 =>
                  if Ascii.eqb q dquote then
                    match scanstring s3 with
                    | None => None
                    | Some (value, s4) =>
                        let acc' := dict_set key value acc in
                        match skip_ws s4 with
                        | String "}" s5 => Some (acc', s5)
                        | String "," s5 =>
                            match skip_ws s5 with
                            | String q' s6 =>
                                if Ascii.eqb q' dquote
                                then parse_members fuel' s6 acc'
                                else None
                            | "" => None
                            end
                        | _ => None
                        end
                    end
                  else None
              | "" => None
              end
          | _ => None
          end
      end
  end.

Definition parse_object (s : string) : option (dict * string) :=
  match s with
  | String "{" s1 =>
      match skip_ws s1 with
      | String "}" s2 => Some ([], s2)
      | String q s2 =>
          if Ascii.eqb q dquote then parse_members (String.length s2) s2 [] else None
      | "" => None
      end
  | _ => None
  end.

(** [json.loads] on a payload.  [None] stands for the [JSONDecodeError] of
    a malformed document; a well-formed document that is not an ASCII text
    holding an object of strings lies outside this model and is answered in
    the same way. *)
Definition json_loads (s : string) : option dict :=
  match parse_object (skip_ws s) with
  | Some (d, rest) =>
      match skip_ws rest with
      | "" => Some d
      | _ => None
      end
  | None => None
  end.

(** ** The blob backend (Google Cloud Storage)

    One bucket: a finite map from blob names to blobs.  Every request to the
    service consumes one entry of [outages]: [Some e] makes that request
    fail with [e], [None] (or an exhausted schedule) lets it through.
    [stdout] collects what the program prints. *)

Record blob : Type := Blob { blob_data : string; blob_content_type : string }.

Record gcs : Type := Gcs {
  objects : gmap string blob;
  outages : list (option exn);
  stdout : list string
}.

Definition set_objects (f : gmap string blob → gmap string blob) (w : gcs) : gcs :=
  Gcs (f (objects w)) (outages w) (stdout w).

Definition print (line : string) : Py gcs unit :=
  modify (λ w, Gcs (objects w) (outages w) (stdout w ++ [line])).

(** One round trip to the service: the head of the schedule decides, and
    is consumed. *)
Definition answered (w : gcs) : gcs :=
  Gcs (objects w) (tail (outages w)) (stdout w).

Definition request : Py gcs unit := λ w,
  match outages w with
  | Some e :: _ => (Raise e, answered w)
  | _ => (Ok tt, answered w)
  end.

(** The names of the blobs whose name starts with [prefix], in the order in
    which the service lists them (lexicographic). *)
Definition under (prefix : string) (m : gmap string blob) : gmap string blob :=
  filter (λ kv, startswith prefix kv.1 = true) m.

Definition blob_names (prefix : string) (m : gmap string blob) : list string :=
  merge_sort String.le (map_to_list (under prefix m)).*1.

(** [client.list_blobs(bucket_name, prefix=prefix)], iterated to the end. *)
Definition list_blobs (prefix : string) : Py gcs (list string) :=
  request ;; gets (λ w, blob_names prefix (objects w)).

(** [blob.exists()]. *)
Definition blob_exists (name : string) : Py gcs bool :=
  request ;; gets (λ w, bool_decide (is_Some (objects w !! name))).

(** [blob.download_as_string()]. *)
Definition blob_download_as_string (name : string) : Py gcs string :=
  request ;;
  o ← gets (λ w, objects w !! name);
  match o with
  | Some b => mret (blob_data b)
  | None => raise (NotFound name)
  end.

(** [blob.upload_from_string(data, content_type=ct)]: creates the object or
    replaces the one of that name. *)
Definition blob_upload_from_string (name data ct : string) : Py gcs unit :=
  request ;; modify (set_objects (insert name (Blob data ct))).

(** [blob.delete()]. *)
Definition blob_delete (name : string) : Py gcs unit :=
  request ;;
  o ← gets (λ w, objects w !! name);
  match o with
  | Some _ => modify (set_objects (delete name))
  | None => raise (NotFound name)
  end.

(** ** [StorageManager] *)

Module StorageManager.

(** [f"{conversation_id}/"]. *)
Definition conversation_prefix (conversation_id : string) : string :=
  conversation_id +:+ "/".

(** [f"{conversation_id}/{n}.json"]. *)
Definition blob_key (conversation_id : string) (n : Z) : string :=
  conversation_id +:+ "/" +:+ format_int n +:+ ".json".

Definition list_interactions (conversation_id : string) : Py gcs (list string) :=
  list_blobs (conversation_prefix conversation_id).

Definition save_interaction (conversation_id : string) (role content : str)
    : Py gcs unit :=
  names ← list_interactions conversation_id;
  let blob_name := blob_key conversation_id (len names + 1) in
  let data := [(wide "role", role); (wide "content", content)] in
  blob_upload_from_string blob_name (json_dumps data) "application/json".

Definition get_interaction (conversation_id : string) (interaction_id : Z)
    : Py gcs (option dict) :=
  let blob_name := blob_key conversation_id interaction_id in
  found ← blob_exists blob_name;
  if found : bool then
    payload ← blob_download_as_string blob_name;
    match json_loads payload with
    | Some d => mret (Some d)
    | None => raise (JSONDecodeError payload)
    end
  else mret None.

Definition clear_storage (conversation_id : string) : Py gcs Z :=
  try_except
    (blobs ← list_blobs (conversation_prefix conversation_id);
     for_each blobs blob_delete ;;
     mret (len blobs))
    (λ e, print ("Error clearing storage: " +:+ str_exn e) ;; mret (-1)).

End StorageManager.

(** ** The generative-model backend (Vertex AI)

    A [GenerativeModel] object is bound to the identifier it was built
    from.  A [ChatSession] is a local object: the model it was started on
    and the history of the exchange, which is empty when the session is
    started.  The service is any function from the model identifier and the
    contents submitted (history, then the new message) to a text or a
    failure; [rejects] tells for which identifiers the constructor of
    [GenerativeModel] raises.  [wire] records every submission. *)

Inductive part : Type :=
  | TextPart (text : str)
  | DataPart (data : string) (mime_type : string).

Definition content : Type := list part.

Record generative_model : Type := GenerativeModel { resource_name : string }.

Record chat_session : Type := ChatSession {
  chat_model : generative_model;
  chat_history : list content
}.

Record submission : Type := Submission {
  sub_model : string;
  sub_history : list content;
  sub_message : content
}.

(** The attributes of a [GeminiManager] instance. *)
Record gemini_manager : Type := GeminiManagerObj {
  model_name : string;
  model : generative_model
}.

Record vertex : Type := Vertex {
  self : gemini_manager;
  rejects : string → option exn;
  service : string → list content → result string;
  wire : list submission;
  console : list string
}.

Definition set_self (f : gemini_manager → gemini_manager) (w : vertex) : vertex :=
  Vertex (f (self w)) (rejects w) (service w) (wire w) (console w).

Definition log_line (line : string) : Py vertex unit :=
  modify (λ w, Vertex (self w) (rejects w) (service w) (wire w) (console w ++ [line])).

(** [GenerativeModel(name)]. *)
Definition new_generative_model (name : string) : Py vertex generative_model := λ w,
  match rejects w name with
  | Some e => (Raise e, w)
  | None => (Ok (GenerativeModel name), w)
  end.

(** [model.start_chat()]. *)
Definition start_chat (m : generative_model) : Py vertex chat_session :=
  mret (ChatSession m []).

(** [chat.send_message(message).text]: one submission of the history and
    the message; the local history grows only when the service answers. *)
Definition send_message (chat : chat_session) (message : content)
    : Py vertex (string * chat_session) := λ w,
  let sub := Submission (resource_name (chat_model chat)) (chat_history chat) message in
  let w' := Vertex (self w) (rejects w) (service w) (wire w ++ [sub]) (console w) in
  match service w (sub_model sub) (chat_history chat ++ [message]) with
  | Ok text =>
      (Ok (text, ChatSession (chat_model chat)
                   (chat_history chat ++ [message; [TextPart text]])), w')
  | Raise e => (Raise e, w')
  end.

(** [Part.from_data(data=data, mime_type=mime_type)]. *)
Definition part_from_data (data mime_type : string) : part := DataPart data mime_type.

(** ** [GeminiManager] *)

Module GeminiManager.

Definition default_model : string := "gemini-1.5-pro-preview-0409".

Definition change_model (name : string) : Py vertex bool :=
  try_except
    (modify (set_self (λ s, GeminiManagerObj name (model s))) ;;
     m ← new_generative_model name;
     modify (set_self (λ s, GeminiManagerObj (model_name s) m)) ;;
     mret true)
    (λ e, log_line ("Error changing model: " +:+ str_exn e) ;; mret false).

Definition send_prompt (prompt : str) : Py vertex string :=
  m ← gets (λ w, model (self w));
  chat ← start_chat m;
  response ← send_message chat [TextPart prompt];
  mret response.1.

Definition send_prompt_with_image (prompt : str) (image_data : string)
    : Py vertex string :=
  try_except
    (let image_part := part_from_data image_data "image/jpeg" in
     m ← gets (λ w, model (self w));
     chat ← start_chat m;
     response ← send_message chat [TextPart prompt; image_part];
     mret response.1)
    (λ e, log_line ("Error sending prompt with image: " +:+ str_exn e) ;; raise e).

End GeminiManager.

(** * Specification vocabulary

    The notions in which the properties below are stated. *)

Import StorageManager GeminiManager.

(** ** The schedule of the service *)

(** The failure, if any, that the next request meets. *)
Definition next_outage (w : gcs) : option exn :=
  match outages w with
  | Some e :: _ => Some e
  | _ => None
  end.

(** No failure is scheduled for the next [n] requests. *)
Fixpoint answers (n : nat) (w : gcs) : bool :=
  match n with
  | O => true
  | S n' => match next_outage w with
            | Some _ => false
            | None => answers n' (answered w)
            end
  end.

(** Nothing is scheduled to fail. *)
Definition healthy (w : gcs) : Prop := outages w = [].

(** ** Strings *)

(** The code points of a Python string. *)
Definition is_str (s : str) : Prop := Forall (λ c, (c ≤ 0x10FFFF)%N) s.

(** The characters that are written without [\u]: the seven short escapes
    and the printable ASCII characters. *)
Definition short (c : N) : bool :=
  ((c =? 92) || (c =? 34) || (c =? 8) || (c =? 12) || (c =? 10) || (c =? 13) || (c =? 9)
   || ((32 <=? c) && (c <=? 126)))%N.

(** [s] holds a high surrogate immediately followed by a low surrogate. *)
Fixpoint has_pair (s : str) : bool :=
  match s with
  | [] => false
  | c :: rest =>
      match rest with
      | d :: _ => (is_high c && is_low d) || has_pair rest
      | [] => false
      end
  end.

(** [s] with every high surrogate that is immediately followed by a low
    surrogate replaced, together with it, by the code point that the pair
    stands for. *)
Fixpoint fused (s : str) : str :=
  match s with
  | [] => []
  | c :: rest =>
      match rest with
      | d :: rest' => if is_high c && is_low d then join c d :: fused rest' else c :: fused rest
      | [] => [c]
      end
  end.

(** ** Appends *)

(** The blob that an append of [{role, content}] stores. *)
Definition turn_payload (role content : str) : blob :=
  Blob (json_dumps [(wide "role", role); (wide "content", content)]) "application/json".

(** The key under which an append made in bucket [m] stores its turn. *)
Definition next_key (C : string) (m : gmap string blob) : string :=
  blob_key C (len (blob_names (conversation_prefix C) m) + 1).

(** The world after [clear_storage] has reported the failure [e]. *)
Definition report_clear_failure (e : exn) (w : gcs) : gcs :=
  Gcs (objects w) (outages w) (stdout w ++ ["Error clearing storage: " +:+ str_exn e]).

(** The part of the world that an operation on [C] may depend on: the
    schedule of the service and the blobs under [C/]. *)
Definition agree_on (C : string) (w1 w2 : gcs) : Prop :=
  outages w1 = outages w2
  ∧ ∀ k, startswith (conversation_prefix C) k = true → objects w1 !! k = objects w2 !! k.

(** ** A single writer *)

(** [D] is [C] followed by a slash and a suffix, or the other way round. *)
Definition nested (C D : string) : bool :=
  startswith (conversation_prefix C) D || startswith (conversation_prefix D) C.

(** No two different identifiers of the list are nested. *)
Definition independent (ids : list string) : bool :=
  forallb (λ C, forallb (λ D, String.eqb C D || negb (nested C D)) ids) ids.

(** Conversation identifiers without a slash. *)
Fixpoint slash_free (s : string) : bool :=
  match s with
  | "" => true
  | String c s' => negb (Ascii.eqb c "/") && slash_free s'
  end.

(** The worlds that a single client reaches from an empty bucket by
    appending to and clearing the conversations [ids], and by reading; a
    clear that failed part-way is not followed further. *)
Inductive reachable (ids : list string) : gcs → Prop :=
  | reach_empty w :
      objects w = ∅ → reachable ids w
  | reach_append w C role content :
      reachable ids w → C ∈ ids →
      reachable ids (save_interaction C role content w).2
  | reach_clear w C n :
      reachable ids w → C ∈ ids →
      (clear_storage C w).1 = Ok n → 0 ≤ n →
      reachable ids (clear_storage C w).2
  | reach_list w C :
      reachable ids w → reachable ids (list_interactions C w).2
  | reach_get w C n :
      reachable ids w → reachable ids (get_interaction C n w).2.

(** The turns of conversation [C] are numbered 1..n without a gap, and
    nothing else lies under its prefix. *)
Definition numbered (C : string) (n : nat) (m : gmap string blob) : Prop :=
  ∀ k, is_Some (m !! k) ∧ startswith (conversation_prefix C) k = true
       ↔ ∃ i : nat, (1 ≤ i ≤ n)%nat ∧ k = blob_key C (Z.of_nat i).

Definition gap_free (ids : list string) (m : gmap string blob) : Prop :=
  ∀ C, C ∈ ids → ∃ n, numbered C n m.

(** ** Concrete worlds *)

Definition empty_bucket : gcs := Gcs ∅ [] [].

(** The bucket after [append("t1", "user", "hello")]. *)
Definition one_turn_bucket : gcs :=
  (save_interaction "t1" "user" "hello" empty_bucket).2.

(** ... and after [append("t1", "gemini", "hi there")]. *)
Definition two_turn_bucket : gcs :=
  (save_interaction "t1" "gemini" "hi there" one_turn_bucket).2.

(** A bucket with one turn in each of the conversations ["C"], ["C/x"] and
    ["D"]. *)
Definition shared_bucket : gcs :=
  (save_interaction "D" "user" "c"
     (save_interaction "C/x" "user" "b"
        (save_interaction "C" "user" "a" empty_bucket).2).2).2.

(** A single client that also uses the conversation identifier ["C/x"],
    which lies under the prefix of conversation ["C"]. *)
Definition nested_trace : Py gcs Z :=
  save_interaction "C" "user" "a" ;;
  save_interaction "C/x" "user" "b" ;;
  save_interaction "C" "user" "c" ;;
  clear_storage "C/x".

(** A session on the default model, in front of a service whose model
    constructor rejects the identifier ["no/such-model"]. *)
Definition picky_vertex : vertex :=
  Vertex (GeminiManagerObj default_model (GenerativeModel default_model))
    (λ name, if String.eqb name "no/such-model"
             then Some (ValueError "Invalid model name")
             else None)
    (λ _ _, Ok "ok") [] [].

(** Runs [skip_ws] over the literal characters at the head of a text. *)
Ltac run_skip_ws :=
  repeat (cbn [skip_ws];
          match goal with
          | |- context [is_ws ?c] =>
              let b := eval vm_compute in (is_ws c) in
              change (is_ws c) with b; cbv iota
          end).

(** * Beyond the single operations

    The store seen as a log of turns, the two console programs
    ([main.py] and [gemini-x/main.py]), the constructor of
    [GeminiManager], and the handlers of the window ([gemini_ui.py]) that
    call the two managers. *)

(** ** The store as a log *)

(** A turn whose role and content are over code points 0..255, as the
    turns are that the programs below store. *)
Definition turn : Type := string * string.

(** The dictionary that [get_interaction] returns for a turn. *)
Definition turn_dict (t : turn) : dict :=
  [(wide "role", wide t.1); (wide "content", wide t.2)].

(** Bucket [m] holds exactly the turns [ts] for conversation [C]: the keys
    under [C/] are those numbered 1 to [length ts], and key number [i + 1]
    holds the payload of the turn at position [i]. *)
Definition holds_log (C : string) (ts : list turn) (m : gmap string blob) : Prop :=
  numbered C (length ts) m
  ∧ ∀ (i : nat) (t : turn), ts !! i = Some t →
      m !! blob_key C (Z.of_nat (S i)) = Some (turn_payload t.1 t.2).

(** Bucket [m] holds the logs [logs] for the conversations [ids]. *)
Definition holds_logs (ids : list string) (logs : string → list turn)
    (m : gmap string blob) : Prop :=
  ∀ C, C ∈ ids → holds_log C (logs C) m.

(** The logs after a turn is appended to conversation [C]. *)
Definition log_append (C : string) (t : turn) (logs : string → list turn)
    : string → list turn :=
  λ D, if decide (D = C) then logs C ++ [t] else logs D.

(** The logs after conversation [C] is cleared. *)
Definition log_clear (C : string) (logs : string → list turn) : string → list turn :=
  λ D, if decide (D = C) then [] else logs D.

(** ** Console programs

    The two [main.py] programs run both managers and talk to a terminal.
    Besides the exceptions of the libraries they can meet [EOFError] (from
    [input]) and [KeyError] (from a subscript), so they live in a monad of
    their own, [Prog], whose failures extend [exn].  What the managers
    print stays in their own logs ([stdout], [console]); [screen] records
    what the program itself writes, prompts of [input] included. *)

Inductive failure : Type :=
  | Library (e : exn)
  | EOFError
  | KeyError (key : string).

Inductive outcome (A : Type) : Type :=
  | Return (a : A)
  | Throw (f : failure).
Arguments Return {A} a.
Arguments Throw {A} f.

Definition Prog (S A : Type) : Type := S → outcome A * S.

Global Instance Prog_ret {S} : MRet (Prog S) := λ A a s, (Return a, s).
Global Instance Prog_bind {S} : MBind (Prog S) := λ A B f m s,
  match m s with
  | (Return a, s') => f a s'
  | (Throw e, s') => (Throw e, s')
  end.

Definition throw {S A} (f : failure) : Prog S A := λ s, (Throw f, s).

(** [while True: body], where [body] answers [false] at a [break].  [None]
    when the fuel does not suffice. *)
Fixpoint while_true {S} (fuel : nat) (body : Prog S bool)
    : S → option (outcome unit * S) :=
  match fuel with
  | O => λ _, None
  | Datatypes.S fuel' => λ s,
      match body s with
      | (Return true, s') => while_true fuel' body s'
      | (Return false, s') => Some (Return tt, s')
      | (Throw f, s') => Some (Throw f, s')
      end
  end.

Record terminal : Type := Terminal {
  cloud : gcs;
  ai : vertex;
  stdin : list string;
  screen : list string
}.

(** A call of a method of the storage manager, resp. of the Gemini
    manager, from a console program. *)
Definition on_cloud {A} (m : Py gcs A) : Prog terminal A := λ t,
  match m (cloud t) with
  | (Ok a, c) => (Return a, Terminal c (ai t) (stdin t) (screen t))
  | (Raise e, c) => (Throw (Library e), Terminal c (ai t) (stdin t) (screen t))
  end.

Definition on_ai {A} (m : Py vertex A) : Prog terminal A := λ t,
  match m (ai t) with
  | (Ok a, v) => (Return a, Terminal (cloud t) v (stdin t) (screen t))
  | (Raise e, v) => (Throw (Library e), Terminal (cloud t) v (stdin t) (screen t))
  end.

(** [print(line)]. *)
Definition print_line (line : string) : Prog terminal unit := λ t,
  (Return tt, Terminal (cloud t) (ai t) (stdin t) (screen t ++ [line])).

(** [input(prompt)]: writes the prompt, then reads one line; [EOFError]
    when the input is exhausted. *)
Definition input (prompt : string) : Prog terminal string := λ t,
  match stdin t with
  | [] => (Throw EOFError, Terminal (cloud t) (ai t) [] (screen t ++ [prompt]))
  | line :: rest => (Return line, Terminal (cloud t) (ai t) rest (screen t ++ [prompt]))
  end.

(** [range(start, stop)]. *)
Definition py_range (start stop : Z) : list Z :=
  (λ i : nat, start + Z.of_nat i) <$> seq 0 (Z.to_nat (stop - start)).

(** [d[key]]. *)
Definition subscript {S} (d : dict) (key : string) : Prog S str :=
  match dict_get key d with
  | Some v => mret v
  | None => throw (KeyError key)
  end.

(** The truth value of an optional dictionary: [None] and the empty
    dictionary are false. *)
Definition truthy (interaction : option dict) : bool :=
  match interaction with
  | Some (_ :: _) => true
  | _ => false
  end.

(** [str.lower] on code points 0..255: the letters A-Z and the upper-case
    letters of Latin-1 (192..222 without the multiplication sign 215). *)
Definition lower_char (c : ascii) : ascii :=
  let n := N_of_ascii c in
  if (((65 <=? n) && (n <=? 90)) || ((192 <=? n) && (n <=? 222) && negb (n =? 215)))%N
  then ascii_of_N (n + 32)
  else c.

Fixpoint lower (s : string) : string :=
  match s with
  | "" => ""
  | String c s' => String (lower_char c) (lower s')
  end.

Definition newline : string := String "010"%char "".

(** [GeminiManager.__init__]. *)
Definition gemini_manager_init : Py vertex unit :=
  modify (set_self (λ s, GeminiManagerObj default_model (model s))) ;;
  m ← new_generative_model default_model;
  modify (set_self (λ s, GeminiManagerObj (model_name s) m)).

Module Workspace.

(** [gemini-x/main.py]. *)

Definition conversation_id : string := "conversation_1".

(** The line that the history holds for a turn. *)
Definition history_line (role content : str) : str :=
  role ++ wide ": " ++ content ++ wide newline.

(** The [for] loop over the interaction numbers. *)
Fixpoint replay (numbers : list Z) (chat_history : str) : Prog terminal str :=
  match numbers with
  | [] => mret chat_history
  | interaction_id :: rest =>
      interaction ← on_cloud (get_interaction conversation_id interaction_id);
      if truthy interaction then
        let d := default [] interaction in
        role ← subscript d "role";
        content ← subscript d "content";
        replay rest (chat_history ++ history_line role content)
      else replay rest chat_history
  end.

(** "Load previous interactions". *)
Definition load_history : Prog terminal str :=
  interactions ← on_cloud (list_interactions conversation_id);
  replay (py_range 1 (len interactions + 1)) [].

Definition indent : string := "        ".

(** The triple-quoted f-string of the prompt. *)
Definition full_prompt (chat_history : str) (user_prompt : string) : str :=
  wide (newline +:+ indent) ++ chat_history ++ wide (newline +:+ indent)
  ++ wide user_prompt ++ wide (newline +:+ indent).

(** One turn of the [while True] loop; [false] at the [break]. *)
Definition chat_round : Prog terminal bool :=
  chat_history ← load_history;
  user_prompt ← input "You: ";
  if String.eqb (lower user_prompt) "exit" then mret false
  else
    gemini_response ← on_ai (send_prompt (full_prompt chat_history user_prompt));
    on_cloud (save_interaction conversation_id "user" (wide user_prompt)) ;;
    on_cloud (save_interaction conversation_id "gemini" (wide gemini_response)) ;;
    print_line ("Gemini: " +:+ gemini_response) ;;
    mret true.

(** [main()]: every turn of the loop that goes on consumes one line of
    input, so one more than the number of lines is fuel enough. *)
Definition main (t : terminal) : option (outcome unit * terminal) :=
  match on_ai gemini_manager_init t with
  | (Return _, t') => while_true (S (length (stdin t'))) chat_round t'
  | (Throw f, t') => Some (Throw f, t')
  end.

End Workspace.

Module Starter.

(** [main.py], which runs the managers of [utils/]: those of
    [gemini-x/utils/] without [change_model], [send_prompt_with_image] and
    [clear_storage].  The constructor of that [GeminiManager] builds the
    same model and keeps no [model_name]. *)

Definition gemini_manager_init : Py vertex unit :=
  m ← new_generative_model default_model;
  modify (set_self (λ s, GeminiManagerObj (model_name s) m)).

Definition conversation_id : string := "conversation_1".

Definition initial_prompt : string :=
  "You are my project leader. Let's start a new project.".

Definition main : Prog terminal unit :=
  on_ai gemini_manager_init ;;
  gemini_response ← on_ai (send_prompt initial_prompt);
  on_cloud (save_interaction conversation_id "user" initial_prompt) ;;
  on_cloud (save_interaction conversation_id "gemini" (wide gemini_response)) ;;
  print_line ("Gemini: " +:+ gemini_response).

End Starter.

(** ** Vocabulary for the console programs *)

(** The world after [n] requests. *)
Fixpoint after_requests (n : nat) (w : gcs) : gcs :=
  match n with
  | O => w
  | S n' => after_requests n' (answered w)
  end.

(** The history text of a log: one line per turn, oldest first. *)
Fixpoint render (ts : list turn) : str :=
  match ts with
  | [] => []
  | t :: ts' => Workspace.history_line t.1 t.2 ++ render ts'
  end.

(** The log after the user lines [us] were exchanged one by one, each with
    the history so far, with a model that answers prompt [p] by
    [reply p]. *)
Fixpoint converse (reply : str → string) (ts : list turn) (us : list string)
    : list turn :=
  match us with
  | [] => ts
  | u :: us' =>
      converse reply
        (ts ++ [("user", u); ("gemini", reply (Workspace.full_prompt (render ts) u))]) us'
  end.

(** The model in front of terminal [t] answers every prompt [p] of a fresh
    exchange by [reply p]. *)
Definition answers_by (reply : str → string) (t : terminal) : Prop :=
  ∀ p, service (ai t) (resource_name (model (self (ai t)))) [[TextPart p]] = Ok (reply p).

(** ** The window ([gemini_ui.py])

    The handlers of [GeminiXApp] that call the two managers, over the part
    of the Tk state that they read and write.  A [Text] widget is its
    content, without the newline that Tk keeps at its end, and whether its
    state is "normal": Tk ignores [insert] and [delete] while the state is
    "disabled".  A message box is recorded in [dialogs], a record of the
    logger in [logfile].  The handlers of the microphone window are those
    of its buttons, so that its transcript area exists when they run. *)

Record text_widget : Type := TextWidget {
  widget_text : string;
  widget_normal : bool
}.

(** [widget.config(state=...)]. *)
Definition config_state (normal : bool) (t : text_widget) : text_widget :=
  TextWidget (widget_text t) normal.

(** [widget.insert(tk.END, s)]. *)
Definition insert_end (s : string) (t : text_widget) : text_widget :=
  if widget_normal t then TextWidget (widget_text t +:+ s) true else t.

(** [widget.insert("1.0", s)]. *)
Definition insert_start (s : string) (t : text_widget) : text_widget :=
  if widget_normal t then TextWidget (s +:+ widget_text t) true else t.

(** [widget.delete("1.0", tk.END)]. *)
Definition delete_all (t : text_widget) : text_widget :=
  if widget_normal t then TextWidget "" true else t.

(** [widget.get("1.0", tk.END)]: the content and the final newline. *)
Definition get_all (t : text_widget) : string := widget_text t +:+ newline.

(** [str.isspace] of a character, on code points 0..255. *)
Definition isspace (c : ascii) : bool :=
  let n := N_of_ascii c in
  (((9 <=? n) && (n <=? 13)) || ((28 <=? n) && (n <=? 32)) || (n =? 133) || (n =? 160))%N.

Fixpoint lstrip (s : string) : string :=
  match s with
  | "" => ""
  | String c s' => if isspace c then lstrip s' else s
  end.

Fixpoint rstrip (s : string) : string :=
  match s with
  | "" => ""
  | String c s' =>
      match rstrip s' with
      | "" => if isspace c then "" else String c ""
      | r => String c r
      end
  end.

(** [str.strip()]. *)
Definition strip (s : string) : string := rstrip (lstrip s).

(** The truth value of a [str]. *)
Definition nonempty (s : string) : bool :=
  match s with
  | "" => false
  | String _ _ => true
  end.

(** The truth value of an optional [str] or [bytes] argument: [None] and
    the empty value are false. *)
Definition given (o : option string) : bool :=
  match o with
  | Some s => nonempty s
  | None => false
  end.

Inductive dialog : Type :=
  | ShowError (title message : string)
  | ShowInfo (title message : string).

Record window : Type := Window {
  store : gcs;
  gemini : vertex;
  selected_model : string;
  status_var : string;
  output_area : text_widget;
  input_area : text_widget;
  transcript_area : text_widget;
  audio_text : string;
  dialogs : list dialog;
  logfile : list string
}.

(** A call of a method of [self.storage_manager], resp. of
    [self.gemini_manager]. *)
Definition on_store {A} (m : Py gcs A) : Py window A := λ w,
  match m (store w) with
  | (r, c) =>
      (r, Window c (gemini w) (selected_model w) (status_var w) (output_area w)
            (input_area w) (transcript_area w) (audio_text w) (dialogs w) (logfile w))
  end.

Definition on_gemini {A} (m : Py vertex A) : Py window A := λ w,
  match m (gemini w) with
  | (r, v) =>
      (r, Window (store w) v (selected_model w) (status_var w) (output_area w)
            (input_area w) (transcript_area w) (audio_text w) (dialogs w) (logfile w))
  end.

Definition on_output (f : text_widget → text_widget) : Py window unit :=
  modify (λ w, Window (store w) (gemini w) (selected_model w) (status_var w)
                 (f (output_area w)) (input_area w) (transcript_area w) (audio_text w)
                 (dialogs w) (logfile w)).

Definition on_input (f : text_widget → text_widget) : Py window unit :=
  modify (λ w, Window (store w) (gemini w) (selected_model w) (status_var w)
                 (output_area w) (f (input_area w)) (transcript_area w) (audio_text w)
                 (dialogs w) (logfile w)).

Definition on_transcript (f : text_widget → text_widget) : Py window unit :=
  modify (λ w, Window (store w) (gemini w) (selected_model w) (status_var w)
                 (output_area w) (input_area w) (f (transcript_area w)) (audio_text w)
                 (dialogs w) (logfile w)).

Definition set_audio_text (s : string) : Py window unit :=
  modify (λ w, Window (store w) (gemini w) (selected_model w) (status_var w)
                 (output_area w) (input_area w) (transcript_area w) s
                 (dialogs w) (logfile w)).

(** [messagebox.showerror] and [messagebox.showinfo]. *)
Definition show (d : dialog) : Py window unit :=
  modify (λ w, Window (store w) (gemini w) (selected_model w) (status_var w)
                 (output_area w) (input_area w) (transcript_area w) (audio_text w)
                 (dialogs w ++ [d]) (logfile w)).

Definition showerror (title message : string) : Py window unit :=
  show (ShowError title message).

Definition showinfo (title message : string) : Py window unit :=
  show (ShowInfo title message).

(** [logger.error(message)]. *)
Definition logger_error (message : string) : Py window unit :=
  modify (λ w, Window (store w) (gemini w) (selected_model w) (status_var w)
                 (output_area w) (input_area w) (transcript_area w) (audio_text w)
                 (dialogs w) (logfile w ++ [message])).

Module GeminiXApp.

Definition conversation_id : string := "conversation_1".

Definition update_status (message : string) : Py window unit :=
  modify (λ w, Window (store w) (gemini w) (selected_model w) message
                 (output_area w) (input_area w) (transcript_area w) (audio_text w)
                 (dialogs w) (logfile w)).

Definition add_to_conversation (role text : string) : Py window unit :=
  on_output (config_state true) ;;
  on_output (insert_end (newline +:+ role +:+ ": ")) ;;
  on_output (insert_end (text +:+ newline)) ;;
  on_output (config_state false).

(** The three [except] clauses of [send_to_gemini]: [NotFound] is a
    [GoogleCloudError], the other classes fall to [Exception]. *)
Definition exchange_failed (e : exn) : Py window unit :=
  match e with
  | VertexAIError _ =>
      logger_error ("Vertex AI error: " +:+ str_exn e) ;;
      update_status ("Error: " +:+ str_exn e) ;;
      showerror "Error" ("An error occurred: " +:+ str_exn e)
  | GoogleCloudError _ | NotFound _ =>
      logger_error ("Google Cloud error: " +:+ str_exn e) ;;
      update_status ("Error: " +:+ str_exn e) ;;
      showerror "Error" ("An error occurred: " +:+ str_exn e)
  | _ =>
      logger_error ("Unexpected error: " +:+ str_exn e) ;;
      update_status ("Error: " +:+ str_exn e) ;;
      showerror "Error" ("An unexpected error occurred: " +:+ str_exn e)
  end.

(** [send_to_gemini] from "If audio_text is provided" on, [user_input]
    being a string by then. *)
Definition exchange (user_input : string) (image_data audio_text : option string)
    : Py window unit :=
  let user_input := if given audio_text then default "" audio_text else user_input in
  update_status "Sending prompt to Gemini..." ;;
  try_except
    (gemini_response ←
       (if given image_data
        then on_gemini (send_prompt_with_image user_input (default "" image_data))
        else on_gemini (send_prompt user_input));
     add_to_conversation "Gemini" gemini_response ;;
     on_store (save_interaction conversation_id "user" user_input) ;;
     on_store (save_interaction conversation_id "gemini" (wide gemini_response)) ;;
     update_status "Response received and displayed.")
    exchange_failed.

Definition send_to_gemini (user_input image_data audio_text : option string)
    : Py window unit :=
  match user_input with
  | None =>
      typed ← gets (λ w, strip (get_all (input_area w)));
      if negb (nonempty typed) && negb (given image_data) && negb (given audio_text)
      then update_status "Please enter a prompt before sending."
      else
        on_input delete_all ;;
        add_to_conversation "You" typed ;;
        exchange typed image_data audio_text
  | Some user_input => exchange user_input image_data audio_text
  end.

Definition clear_cloud_storage : Py window unit :=
  try_except
    (deleted_count ← on_store (clear_storage conversation_id);
     if 0 <=? deleted_count
     then update_status ("Cleared " +:+ format_int deleted_count
                         +:+ " messages from cloud storage")
     else
       update_status "Failed to clear cloud storage" ;;
       showerror "Error" "Failed to clear cloud storage")
    (λ e,
       match e with
       | GoogleCloudError _ | NotFound _ =>
           logger_error ("Google Cloud error: " +:+ str_exn e)
       | _ => logger_error ("Unexpected error: " +:+ str_exn e)
       end ;;
       update_status ("Error clearing cloud storage: " +:+ str_exn e) ;;
       showerror "Error" ("Failed to clear cloud storage: " +:+ str_exn e)).

Definition clear_conversation : Py window unit :=
  on_output (config_state true) ;;
  on_output delete_all ;;
  on_output (config_state false) ;;
  clear_cloud_storage ;;
  update_status "Conversation cleared".

Definition new_conversation : Py window unit :=
  clear_conversation ;;
  clear_cloud_storage ;;
  update_status "New conversation started".

Definition select_model : Py window unit :=
  showinfo "Select Model" "Select a model from the dropdown menu" ;;
  update_status "Select a model from the dropdown menu".

Definition on_model_change : Py window unit :=
  new_model ← gets selected_model;
  try_except
    (success ← on_gemini (change_model new_model);
     if success : bool
     then update_status ("Model changed to " +:+ new_model)
     else
       update_status ("Failed to change model to " +:+ new_model) ;;
       showerror "Error" ("Failed to change model to " +:+ new_model))
    (λ e,
       match e with
       | VertexAIError _ => logger_error ("Vertex AI error: " +:+ str_exn e)
       | _ => logger_error ("Unexpected error: " +:+ str_exn e)
       end ;;
       update_status ("Error changing model: " +:+ str_exn e) ;;
       showerror "Error" ("Failed to change model: " +:+ str_exn e)).

Definition update_transcript (text : string) : Py window unit :=
  if nonempty text then
    so_far ← gets audio_text;
    set_audio_text (so_far +:+ text +:+ " ") ;;
    on_transcript (config_state true) ;;
    on_transcript delete_all ;;
    shown ← gets audio_text;
    on_transcript (insert_end shown) ;;
    on_transcript (config_state false)
  else mret tt.

Definition insert_transcript_to_prompt : Py window unit :=
  transcribed ← gets audio_text;
  if nonempty transcribed then
    current_text ← gets (λ w, strip (get_all (input_area w)));
    (if nonempty current_text
     then on_input (insert_end (" " +:+ transcribed))
     else on_input (insert_start transcribed)) ;;
    update_status "Transcribed text inserted into prompt"
  else showinfo "No Text" "There is no transcribed text to insert.".

Definition send_microphone_to_gemini : Py window unit :=
  transcribed ← gets audio_text;
  if nonempty transcribed then
    try_except
      (update_status "Sending transcribed audio to Gemini..." ;;
       on_output (config_state true) ;;
       on_output (insert_end (newline +:+ "You: [Transcribed audio: " +:+ String dquote ""
                              +:+ transcribed +:+ String dquote "" +:+ "]" +:+ newline)) ;;
       on_output (config_state false) ;;
       send_to_gemini (Some transcribed) None None ;;
       set_audio_text "" ;;
       on_transcript (config_state true) ;;
       on_transcript delete_all ;;
       on_transcript (config_state false))
      (λ e,
         logger_error ("Unexpected error: " +:+ str_exn e) ;;
         update_status ("Error sending audio transcript to Gemini: " +:+ str_exn e) ;;
         showerror "Error" ("Error sending audio transcript to Gemini: " +:+ str_exn e))
  else showinfo "No Text" "There is no transcribed text to send.".

Definition about : Py window unit :=
  showinfo "About" "Gemini X - A custom Gemini interface" ;;
  update_status "Gemini X - A custom Gemini interface".

End GeminiXApp.

(** ** Vocabulary for the window *)

(** The callbacks that the menus, the buttons, the model list and the
    speech recogniser are bound to. *)
Inductive callback : Type :=
  | Send
  | Clear
  | NewConversation
  | SelectModel
  | ModelChange
  | AboutMenu
  | Recognised (text : string)
  | InsertTranscript
  | SendMicrophone.

Definition fire (c : callback) : Py window unit :=
  match c with
  | Send => GeminiXApp.send_to_gemini None None None
  | Clear => GeminiXApp.clear_conversation
  | NewConversation => GeminiXApp.new_conversation
  | SelectModel => GeminiXApp.select_model
  | ModelChange => GeminiXApp.on_model_change
  | AboutMenu => GeminiXApp.about
  | Recognised text => GeminiXApp.update_transcript text
  | InsertTranscript => GeminiXApp.insert_transcript_to_prompt
  | SendMicrophone => GeminiXApp.send_microphone_to_gemini
  end.

(** The two read-only areas are read-only. *)
Definition read_only (w : window) : Prop :=
  widget_normal (output_area w) = false ∧ widget_normal (transcript_area w) = false.

(** [m] returns normally from every state, and leaves the read-only areas
    read-only. *)
Definition safe (m : Py window unit) : Prop :=
  ∀ w, ∃ w', m w = (Ok tt, w') ∧ (read_only w → read_only w').

(** What the results [texts] of the recogniser add to the transcript. *)
Fixpoint dictated (texts : list string) : string :=
  match texts with
  | [] => ""
  | text :: rest => (if nonempty text then text +:+ " " else "") +:+ dictated rest
  end.

(** The lines that [add_to_conversation] adds for a message. *)
Definition shown (role text : string) : string :=
  newline +:+ role +:+ ": " +:+ text +:+ newline.

(** The dialog that [send_to_gemini] shows for a failure. *)
Definition failure_dialog (e : exn) : dialog :=
  match e with
  | VertexAIError m | GoogleCloudError m | NotFound m =>
      ShowError "Error" ("An error occurred: " +:+ m)
  | JSONDecodeError m | ValueError m =>
      ShowError "Error" ("An unexpected error occurred: " +:+ m)
  end.

(** ** More concrete worlds *)

(** A session on the default model whose service fails every call. *)
Definition down_vertex : vertex :=
  Vertex (GeminiManagerObj default_model (GenerativeModel default_model))
    (λ _, None) (λ _ _, Raise (VertexAIError "503 unavailable")) [] [].

(** A store that answers three requests and fails the fourth. *)
Definition flaky_bucket : gcs :=
  Gcs ∅ [None; None; None; Some (GoogleCloudError "503 unavailable")] [].

(** The bucket after [append("conversation_1", "user", "hello")]. *)
Definition greeted_bucket : gcs :=
  (save_interaction "conversation_1" "user" "hello" empty_bucket).2.


(** A window just opened on an empty bucket, with ["hello"] typed. *)
Definition fresh_window : window :=
  Window empty_bucket picky_vertex default_model "Ready - Gemini X initialized"
    (TextWidget "" false) (TextWidget "hello" true) (TextWidget "" false) "" [] [].

(** ... with a blank in the prompt area instead. *)
Definition idle_window : window :=
  Window empty_bucket picky_vertex default_model "Ready - Gemini X initialized"
    (TextWidget "" false) (TextWidget " " true) (TextWidget "" false) "" [] [].

(** ... with ["hello"] typed, in front of a service that fails every call. *)
Definition offline_window : window :=
  Window empty_bucket down_vertex default_model "Ready - Gemini X initialized"
    (TextWidget "" false) (TextWidget "hello" true) (TextWidget "" false) "" [] [].

(** ... with ["hello"] typed, on a bucket that holds one turn, and whose
    next request fails. *)
Definition stormy_window : window :=
  Window (Gcs (objects greeted_bucket) [Some (GoogleCloudError "503 unavailable")] [])
    picky_vertex default_model "Ready - Gemini X initialized"
    (TextWidget "" false) (TextWidget "hello" true) (TextWidget "" false) "" [] [].

(** ... after the recogniser heard ["hello"], the prompt area blank. *)
Definition dictating_window : window :=
  Window empty_bucket picky_vertex default_model "Speech recognized"
    (TextWidget "" false) (TextWidget " " true) (TextWidget "hello " false) "hello " [] [].

(** * Verification *)

(** ** Facts about strings *)

#[local] Arguments String.append !_ _ / : simpl nomatch.

Lemma string_app_assoc (a b c : string) : (a +:+ b) +:+ c = a +:+ (b +:+ c).
Proof. induction a as [|x a IH]; simpl; [done | by rewrite IH]. Qed.

Lemma startswith_nil (k : string) : startswith "" k = true.
Proof. by destruct k. Qed.

Lemma startswith_cons (x y : ascii) (p k : string) :
  startswith (String x p) (String y k) = bool_decide (x = y) && startswith p k.
Proof.
  unfold startswith; simpl. destruct (ascii_dec x y).
  - by rewrite bool_decide_eq_true_2.
  - by rewrite bool_decide_eq_false_2.
Qed.

Lemma startswith_cons_nil (x : ascii) (p : string) : startswith (String x p) "" = false.
Proof. done. Qed.

#[local] Arguments startswith : simpl never.

Lemma startswith_app (p t : string) : startswith p (p +:+ t) = true.
Proof.
  induction p as [|x p IH]; simpl; [apply startswith_nil |].
  by rewrite startswith_cons, bool_decide_eq_true_2, IH.
Qed.

Lemma startswith_inv (p k : string) :
  startswith p k = true → ∃ t, k = p +:+ t.
Proof.
  revert k. induction p as [|x p IH]; intros k H; [by exists k |].
  destruct k as [|y k]; [done |].
  rewrite startswith_cons in H. apply andb_true_iff in H as [->%bool_decide_eq_true H].
  destruct (IH k H) as [t ->]. by exists t.
Qed.

Lemma startswith_trans (p q k : string) :
  startswith p q = true → startswith q k = true → startswith p k = true.
Proof.
  intros [t ->]%startswith_inv [u ->]%startswith_inv.
  rewrite string_app_assoc. apply startswith_app.
Qed.

(** Two prefixes of one string are comparable. *)
Lemma startswith_comparable (p q k : string) :
  startswith p k = true → startswith q k = true →
  startswith p q = true ∨ startswith q p = true.
Proof.
  revert q k. induction p as [|x p IH]; intros q k Hp Hq.
  - left. apply startswith_nil.
  - destruct q as [|y q]; [right; apply startswith_nil |].
    destruct k as [|z k]; [done |].
    rewrite startswith_cons in Hp, Hq.
    apply andb_true_iff in Hp as [->%bool_decide_eq_true Hp].
    apply andb_true_iff in Hq as [->%bool_decide_eq_true Hq].
    rewrite !startswith_cons, bool_decide_eq_true_2 by done. simpl. eauto.
Qed.

Lemma conversation_prefix_inj (C D : string) :
  conversation_prefix C = conversation_prefix D → C = D.
Proof.
  unfold conversation_prefix. revert D.
  induction C as [|x C IH]; intros [|y D] H; simpl in *; try done.
  - injection H as <- H. by destruct D.
  - injection H as -> H. by destruct C.
  - injection H as -> H. f_equal. by apply IH.
Qed.

(** When [C/] is a prefix of [D/], either the identifiers coincide or [D]
    is [C] followed by a slash and a suffix. *)
Lemma conversation_prefix_nested (C D : string) :
  startswith (conversation_prefix C) (conversation_prefix D) = true →
  C = D ∨ startswith (conversation_prefix C) D = true.
Proof.
  unfold conversation_prefix. revert D.
  induction C as [|x C IH]; intros D H; simpl in *.
  - destruct D as [|y D]; [by left |]. simpl in *.
    rewrite startswith_cons in H. apply andb_true_iff in H as [<-%bool_decide_eq_true _].
    right. by rewrite startswith_cons, startswith_nil.
  - destruct D as [|y D]; simpl in *.
    + rewrite startswith_cons in H. apply andb_true_iff in H as [_ H]. by destruct C.
    + rewrite startswith_cons in H. apply andb_true_iff in H as [->%bool_decide_eq_true H].
      destruct (IH D H) as [-> | ?]; [by left | right].
      by rewrite startswith_cons, bool_decide_eq_true_2.
Qed.

Lemma blob_key_startswith (C : string) (n : Z) :
  startswith (conversation_prefix C) (blob_key C n) = true.
Proof.
  unfold blob_key, conversation_prefix.
  rewrite <- string_app_assoc. apply startswith_app.
Qed.

Lemma string_app_inj_r (a b s : string) : a +:+ s = b +:+ s → a = b.
Proof.
  intros H.
  assert (Hlen : ∀ u v : string, String.length (u +:+ v) = (String.length u + String.length v)%nat).
  { intros u v. induction u; simpl; [done | by f_equal]. }
  assert (String.length a = String.length b) as Hab.
  { apply (f_equal String.length) in H. rewrite !Hlen in H. lia. }
  clear Hlen. revert b H Hab.
  induction a as [|x a IH]; intros [|y b] H Hab; simpl in *; try done.
  injection H as -> H. f_equal. apply IH; [done | lia].
Qed.

Lemma blob_key_inj (C : string) (n m : Z) : blob_key C n = blob_key C m → n = m.
Proof.
  unfold blob_key, format_int. intros H.
  apply (inj (String.app C)), (inj (String.app "/")), string_app_inj_r in H.
  by apply (inj pretty) in H.
Qed.

(** ** Facts about the listing of a prefix *)

Lemma under_lookup_Some (p : string) (m : gmap string blob) (k : string) (b : blob) :
  under p m !! k = Some b ↔ m !! k = Some b ∧ startswith p k = true.
Proof. unfold under. by rewrite map_lookup_filter_Some. Qed.

Lemma under_lookup_None (p : string) (m : gmap string blob) (k : string) :
  under p m !! k = None ↔ m !! k = None ∨ startswith p k = false.
Proof.
  unfold under. rewrite map_lookup_filter_None. simpl. split.
  - intros [? | H]; [by left |].
    destruct (m !! k) as [b|] eqn:E; [| by left].
    right. specialize (H b eq_refl). by destruct (startswith p k).
  - intros [? | H]; [by left |]. right. intros b _. by rewrite H.
Qed.

Lemma elem_of_blob_names (p : string) (m : gmap string blob) (k : string) :
  k ∈ blob_names p m ↔ is_Some (m !! k) ∧ startswith p k = true.
Proof.
  unfold blob_names. rewrite merge_sort_Permutation, list_elem_of_fmap. split.
  - intros [[k' b] [-> [? ?]%elem_of_map_to_list%under_lookup_Some]]. eauto.
  - intros [[b Hb] Hp]. exists (k, b). split; [done |].
    by apply elem_of_map_to_list, under_lookup_Some.
Qed.

Lemma NoDup_blob_names (p : string) (m : gmap string blob) : NoDup (blob_names p m).
Proof. unfold blob_names. rewrite merge_sort_Permutation. apply NoDup_fst_map_to_list. Qed.

Lemma length_blob_names (p : string) (m : gmap string blob) :
  length (blob_names p m) = size (under p m).
Proof.
  unfold blob_names.
  by rewrite merge_sort_Permutation, length_fmap, length_map_to_list.
Qed.

Lemma under_insert_in (p k : string) (b : blob) (m : gmap string blob) :
  startswith p k = true → under p (<[k:=b]> m) = <[k:=b]> (under p m).
Proof. intros H. unfold under. by rewrite map_filter_insert_True. Qed.

Lemma under_insert_out (p k : string) (b : blob) (m : gmap string blob) :
  startswith p k = false → under p (<[k:=b]> m) = under p m.
Proof.
  intros H. apply map_eq. intros j.
  destruct (under p m !! j) as [c|] eqn:E.
  - apply under_lookup_Some in E as [E Hj]. apply under_lookup_Some.
    split; [| done]. rewrite lookup_insert_ne; [done | congruence].
  - apply under_lookup_None in E. apply under_lookup_None.
    destruct (decide (k = j)) as [-> | Hne]; [by right |].
    by rewrite lookup_insert_ne.
Qed.

(** A listing depends only on the blobs under its prefix. *)
Lemma blob_names_agree (p : string) (m1 m2 : gmap string blob) :
  (∀ k, startswith p k = true → m1 !! k = m2 !! k) →
  blob_names p m1 = blob_names p m2.
Proof.
  intros H. unfold blob_names. f_equal. f_equal. f_equal.
  apply map_eq. intros k.
  destruct (startswith p k) eqn:Hk.
  - unfold under. rewrite !map_lookup_filter. rewrite (H k Hk). done.
  - transitivity (@None blob); [| symmetry]; apply under_lookup_None; by right.
Qed.

(** ** The primitives of the backend *)

Lemma answered_healthy (w : gcs) : healthy w → answered w = w.
Proof. unfold healthy, answered. destruct w as [m o s]; simpl. by intros ->. Qed.

Lemma healthy_next_outage (w : gcs) : healthy w → next_outage w = None.
Proof. unfold healthy, next_outage. by intros ->. Qed.

Lemma healthy_answers (n : nat) (w : gcs) : healthy w → answers n w = true.
Proof.
  intros H. induction n as [|n IH]; simpl; [done |].
  by rewrite healthy_next_outage, answered_healthy.
Qed.

Lemma request_run (w : gcs) :
  request w = match next_outage w with
              | Some e => (Raise e, answered w)
              | None => (Ok tt, answered w)
              end.
Proof. unfold request, next_outage. by destruct (outages w) as [|[e|] ?]. Qed.

Lemma list_blobs_run (p : string) (w : gcs) :
  list_blobs p w = match next_outage w with
                   | Some e => (Raise e, answered w)
                   | None => (Ok (blob_names p (objects w)), answered w)
                   end.
Proof.
  unfold list_blobs, mbind, Py_bind. rewrite request_run.
  by destruct (next_outage w).
Qed.

Lemma blob_exists_run (k : string) (w : gcs) :
  blob_exists k w = match next_outage w with
                    | Some e => (Raise e, answered w)
                    | None => (Ok (bool_decide (is_Some (objects w !! k))), answered w)
                    end.
Proof.
  unfold blob_exists, mbind, Py_bind. rewrite request_run.
  by destruct (next_outage w).
Qed.

Lemma blob_download_run (k : string) (w : gcs) :
  blob_download_as_string k w =
    match next_outage w with
    | Some e => (Raise e, answered w)
    | None => match objects w !! k with
              | Some b => (Ok (blob_data b), answered w)
              | None => (Raise (NotFound k), answered w)
              end
    end.
Proof.
  unfold blob_download_as_string, mbind, Py_bind. rewrite request_run.
  destruct (next_outage w); [done |]. unfold gets; simpl.
  by destruct (objects w !! k).
Qed.

Lemma blob_upload_run (k data ct : string) (w : gcs) :
  blob_upload_from_string k data ct w =
    match next_outage w with
    | Some e => (Raise e, answered w)
    | None => (Ok tt, set_objects (insert k (Blob data ct)) (answered w))
    end.
Proof.
  unfold blob_upload_from_string, mbind, Py_bind. rewrite request_run.
  by destruct (next_outage w).
Qed.

Lemma blob_delete_run (k : string) (w : gcs) :
  blob_delete k w =
    match next_outage w with
    | Some e => (Raise e, answered w)
    | None => match objects w !! k with
              | Some _ => (Ok tt, set_objects (delete k) (answered w))
              | None => (Raise (NotFound k), answered w)
              end
    end.
Proof.
  unfold blob_delete, mbind, Py_bind. rewrite request_run.
  destruct (next_outage w); [done |]. unfold gets; simpl.
  by destruct (objects w !! k).
Qed.

(** ** [json.loads] after [json.dumps] on the payload of a turn *)

Lemma hex_value_digit (k : N) : (k < 16)%N → hex_value (hex_digit k) = Some k.
Proof.
  intros H. destruct k as [|p]; [reflexivity |].
  do 4 (try destruct p as [p|p|]); try reflexivity; lia.
Qed.

Lemma hex_digits_value (n : N) :
  (n < 0x10000)%N →
  (4096 * (n / 4096) + 256 * ((n / 256) mod 16) + 16 * ((n / 16) mod 16) + n mod 16 = n)%N.
Proof. intros H. zify. Z.to_euclidean_division_equations. lia. Qed.

Lemma decode_u_escape (n : N) :
  (n < 0x10000)%N →
  decode_uXXXX (hex_digit (n / 4096)) (hex_digit ((n / 256) mod 16))
    (hex_digit ((n / 16) mod 16)) (hex_digit (n mod 16)) = Some n.
Proof.
  intros H. unfold decode_uXXXX.
  rewrite !hex_value_digit; [by rewrite hex_digits_value | ..];
    zify; Z.to_euclidean_division_equations; lia.
Qed.

(** The scanner on an escape [\uXXXX]. *)
Lemma scanstring_u (a b c d : ascii) (t : string) :
  scanstring (String backslash (String "u" (String a (String b (String c (String d t))))))
  = match decode_uXXXX a b c d with
    | Some uni =>
        if is_high uni then
          match t with
          | String b (String u (String g1 (String g2 (String g3 (String g4 rest3))))) =>
              if Ascii.eqb b backslash && Ascii.eqb u "u" then
                match decode_uXXXX g1 g2 g3 g4 with
                | Some uni2 =>
                    if is_low uni2
                    then cons_fst (join uni uni2) (scanstring rest3)
                    else cons_fst uni (scanstring t)
                | None => None
                end
              else cons_fst uni (scanstring t)
          | _ => cons_fst uni (scanstring t)
          end
        else cons_fst uni (scanstring t)
    | None => None
    end.
Proof. reflexivity. Qed.

Lemma scanstring_u_plain (n : N) (t : string) :
  (n < 0x10000)%N → is_high n = false →
  scanstring (u_escape n +:+ t) = cons_fst n (scanstring t).
Proof.
  intros Hn Hhigh. unfold u_escape. cbn [String.append].
  by rewrite scanstring_u, decode_u_escape, Hhigh.
Qed.

(** A high surrogate followed by another escape [\uXXXX]. *)
Lemma scanstring_u_high_u (n m : N) (t : string) :
  (n < 0x10000)%N → (m < 0x10000)%N → is_high n = true →
  scanstring (u_escape n +:+ u_escape m +:+ t)
  = if is_low m then cons_fst (join n m) (scanstring t)
    else cons_fst n (scanstring (u_escape m +:+ t)).
Proof.
  intros Hn Hm Hhigh. unfold u_escape at 1. cbn [String.append].
  rewrite scanstring_u, decode_u_escape, Hhigh by done.
  unfold u_escape. cbn [String.append].
  change (Ascii.eqb backslash backslash && Ascii.eqb "u" "u") with true. cbv iota.
  by rewrite decode_u_escape.
Qed.

(** A high surrogate followed by anything but an escape [\uXXXX]. *)
Lemma scanstring_u_high_other (n : N) (t : string) :
  (n < 0x10000)%N →
  (∀ r, t ≠ String backslash (String "u" r)) →
  scanstring (u_escape n +:+ t) = cons_fst n (scanstring t).
Proof.
  intros Hn Ht. unfold u_escape. cbn [String.append].
  rewrite scanstring_u, decode_u_escape by done.
  destruct (is_high n); [| done].
  destruct t as [|b [|u [|g1 [|g2 [|g3 [|g4 rest3]]]]]]; try done.
  destruct (Ascii.eqb b backslash) eqn:Hb; [| done].
  destruct (Ascii.eqb u "u") eqn:Hu; [| done].
  apply Ascii.eqb_eq in Hb as ->. apply Ascii.eqb_eq in Hu as ->.
  exfalso. by eapply Ht.
Qed.

Lemma scanstring_literal (x : ascii) (t : string) :
  (N_of_ascii x =? 34)%N = false →
  (N_of_ascii x =? 92)%N = false →
  ((N_of_ascii x <? 32) || (127 <? N_of_ascii x))%N = false →
  scanstring (String x t) = cons_fst (N_of_ascii x) (scanstring t).
Proof. intros H1 H2 H3. cbn [scanstring]. cbv zeta. by rewrite H1, H2, H3. Qed.

Lemma escape_char_short (c : N) (t : string) :
  short c = true →
  scanstring (escape_char c +:+ t) = cons_fst c (scanstring t)
  ∧ ∀ r, escape_char c +:+ t ≠ String backslash (String "u" r).
Proof.
  unfold short, escape_char. intros Hc.
  destruct (c =? 92)%N eqn:E1; [apply N.eqb_eq in E1 as ->; by split |].
  destruct (c =? 34)%N eqn:E2; [apply N.eqb_eq in E2 as ->; by split |].
  destruct (c =? 8)%N eqn:E3; [apply N.eqb_eq in E3 as ->; by split |].
  destruct (c =? 12)%N eqn:E4; [apply N.eqb_eq in E4 as ->; by split |].
  destruct (c =? 10)%N eqn:E5; [apply N.eqb_eq in E5 as ->; by split |].
  destruct (c =? 13)%N eqn:E6; [apply N.eqb_eq in E6 as ->; by split |].
  destruct (c =? 9)%N eqn:E7; [apply N.eqb_eq in E7 as ->; by split |].
  simpl in Hc. rewrite Hc. apply andb_true_iff in Hc as [Hlo%N.leb_le Hhi%N.leb_le].
  assert (N_of_ascii (ascii_of_N c) = c) as Hcode by (apply N_ascii_embedding; lia).
  cbn [String.append]. split.
  - rewrite scanstring_literal; rewrite Hcode; [done.. |].
    apply orb_false_iff. split; apply N.ltb_ge; lia.
  - intros r [= Hb]. apply (f_equal N_of_ascii) in Hb. rewrite Hcode in Hb.
    apply N.eqb_neq in E1. by apply E1.
Qed.

(** The two escapes of a code point from 0x10000 on. *)
Lemma lor_shiftl (a b k : N) : (b < 2 ^ k)%N → N.lor (N.shiftl a k) b = (a * 2 ^ k + b)%N.
Proof.
  intros Hb.
  assert (N.land (N.shiftl a k) b = 0%N) as Hland.
  { apply N.bits_inj. intros i. rewrite N.land_spec, N.bits_0.
    destruct (N.lt_ge_cases i k) as [Hlt | Hge].
    - by rewrite N.shiftl_spec_low.
    - rewrite <- (N.mod_small b (2 ^ k)) by done.
      by rewrite N.mod_pow2_bits_high, andb_false_r. }
  by rewrite <- N.lxor_lor, <- N.add_nocarry_lxor, N.shiftl_mul_pow2.
Qed.

Lemma surrogates_of (c : N) :
  (0x10000 ≤ c ≤ 0x10FFFF)%N →
  let v := (c - 0x10000)%N in
  let hi := N.lor 0xd800 (N.land (N.shiftr v 10) 0x3ff) in
  let lo := N.lor 0xdc00 (N.land v 0x3ff) in
  is_high hi = true ∧ is_low lo = true ∧ join hi lo = c.
Proof.
  intros Hc v hi lo.
  assert (v < 1048576)%N as Hv by (unfold v; lia).
  assert (c = 65536 + v)%N as Hcv by (unfold v; lia).
  clearbody v.
  assert (v / 1024 < 1024)%N as Ha by (zify; Z.to_euclidean_division_equations; lia).
  assert (v mod 1024 < 1024)%N as Hb by (by apply N.mod_lt).
  assert (hi = 55296 + v / 1024)%N as Hhi.
  { unfold hi. change 0x3ff%N with (N.ones 10). rewrite N.land_ones, N.shiftr_div_pow2.
    change (2 ^ 10)%N with 1024%N. rewrite (N.mod_small (v / 1024)) by done.
    change 0xd800%N with (N.shiftl 54 10). rewrite lor_shiftl by done.
    reflexivity. }
  assert (lo = 56320 + v mod 1024)%N as Hlo.
  { unfold lo. change 0x3ff%N with (N.ones 10). rewrite N.land_ones.
    change (2 ^ 10)%N with 1024%N.
    change 0xdc00%N with (N.shiftl 55 10). rewrite lor_shiftl by done.
    reflexivity. }
  clearbody hi lo. subst hi lo. split_and!.
  - unfold is_high. apply andb_true_iff.
    split; apply N.leb_le; zify; Z.to_euclidean_division_equations; lia.
  - unfold is_low. apply andb_true_iff.
    split; apply N.leb_le; zify; Z.to_euclidean_division_equations; lia.
  - unfold join.
    replace (55296 + v / 1024 - 0xd800)%N with (v / 1024)%N
      by (zify; Z.to_euclidean_division_equations; lia).
    replace (56320 + v mod 1024 - 0xdc00)%N with (v mod 1024)%N
      by (zify; Z.to_euclidean_division_equations; lia).
    rewrite lor_shiftl by done. change (2 ^ 10)%N with 1024%N.
    zify. Z.to_euclidean_division_equations. lia.
Qed.

(** The scanner on the text of a character that is not a high
    surrogate. *)
Lemma scanstring_escape_char (c : N) (t : string) :
  (c ≤ 0x10FFFF)%N → is_high c = false →
  scanstring (escape_char c +:+ t) = cons_fst c (scanstring t).
Proof.
  intros Hc Hhigh. destruct (short c) eqn:Hshort.
  { by apply escape_char_short. }
  assert (escape_char c
          = if (c <? 0x10000)%N then u_escape c
            else u_escape (N.lor 0xd800 (N.land (N.shiftr (c - 0x10000) 10) 0x3ff))
                 +:+ u_escape (N.lor 0xdc00 (N.land (c - 0x10000) 0x3ff))) as ->.
  { unfold short in Hshort. unfold escape_char.
    repeat (apply orb_false_iff in Hshort as [Hshort ?]).
    by repeat match goal with H : _ = false |- _ => rewrite H; clear H end. }
  destruct (c <? 0x10000)%N eqn:Hbmp.
  - apply scanstring_u_plain; [by apply N.ltb_lt | done].
  - apply N.ltb_ge in Hbmp.
    destruct (surrogates_of c) as (Hhi & Hlo & Hjoin); [lia |]. cbv zeta in *.
    rewrite string_app_assoc, scanstring_u_high_u, Hlo, Hjoin; [done | | | done].
    + unfold is_high in Hhi. apply andb_true_iff in Hhi as [_ ?%N.leb_le]. lia.
    + unfold is_low in Hlo. apply andb_true_iff in Hlo as [_ ?%N.leb_le]. lia.
Qed.

Lemma escape_char_long (c : N) :
  short c = false →
  escape_char c
  = if (c <? 0x10000)%N then u_escape c
    else u_escape (N.lor 0xd800 (N.land (N.shiftr (c - 0x10000) 10) 0x3ff))
         +:+ u_escape (N.lor 0xdc00 (N.land (c - 0x10000) 0x3ff)).
Proof.
  intros Hshort. unfold short in Hshort. unfold escape_char.
  repeat (apply orb_false_iff in Hshort as [Hshort ?]).
  by repeat match goal with H : _ = false |- _ => rewrite H; clear H end.
Qed.

Lemma is_high_long (c : N) : is_high c = true → short c = false ∧ (c < 0x10000)%N.
Proof.
  unfold is_high, short. intros [Hlo%N.leb_le Hhi%N.leb_le]%andb_true_iff. split; [| lia].
  repeat (apply orb_false_iff; split); try (apply N.eqb_neq; lia).
  apply andb_false_iff. right. apply N.leb_gt. lia.
Qed.

Lemma fused_cons (c : N) (s : str) : is_high c = false → fused (c :: s) = c :: fused s.
Proof. intros Hc. destruct s; simpl; by rewrite ?Hc. Qed.

(** The scanner on the text that [json.dumps] writes for a string. *)
Lemma scanstring_escape_bounded (n : nat) (s : str) (t : string) :
  (length s ≤ n)%nat → is_str s →
  scanstring (escape s +:+ String dquote t) = Some (fused s, t).
Proof.
  revert s. induction n as [|n IH]; intros [|c s] Hlen Hs; try done.
  { simpl in Hlen. lia. }
  apply Forall_cons in Hs as [Hc Hs]. simpl in Hlen.
  cbn [escape]. rewrite string_app_assoc.
  destruct (is_high c) eqn:Hhigh.
  - destruct (is_high_long c Hhigh) as [Hshort Hbmp].
    rewrite (escape_char_long c Hshort). apply N.ltb_lt in Hbmp as Hbmp'. rewrite Hbmp'.
    destruct s as [|d s].
    + rewrite scanstring_u_high_other; [done | done |]. by intros r.
    + apply Forall_cons in Hs as [Hd Hs]. simpl in Hlen.
      cbn [escape]. rewrite string_app_assoc.
      destruct (short d) eqn:Hsd.
      * destruct (escape_char_short d (escape s +:+ String dquote t) Hsd) as [Hscan Hnot].
        rewrite scanstring_u_high_other by done.
        assert (is_low d = false) as Hlow.
        { unfold short in Hsd. unfold is_low. apply andb_false_iff. left. apply N.leb_gt.
          repeat (apply orb_true_iff in Hsd as [Hsd | Hsd]);
            try (apply N.eqb_eq in Hsd; lia).
          apply andb_true_iff in Hsd as [_ ?%N.leb_le]. lia. }
        cbn [fused]. rewrite Hlow, andb_false_r.
        rewrite <- string_app_assoc.
        change (escape_char d +:+ escape s) with (escape (d :: s)).
        rewrite IH; [done | simpl; lia | by constructor].
      * rewrite (escape_char_long d Hsd).
        destruct (d <? 0x10000)%N eqn:Hdb.
        -- apply N.ltb_lt in Hdb as Hdb'.
           rewrite scanstring_u_high_u by done. cbn [fused]. rewrite Hhigh. cbn [andb].
           destruct (is_low d) eqn:Hlow.
           ++ rewrite IH; [done | lia | done].
           ++ assert (u_escape d = escape_char d) as ->.
              { by rewrite (escape_char_long d Hsd), Hdb. }
              rewrite <- string_app_assoc.
              change (escape_char d +:+ escape s) with (escape (d :: s)).
              rewrite IH; [done | simpl; lia | by constructor].
        -- apply N.ltb_ge in Hdb as Hdb'.
           destruct (surrogates_of d) as (Hhi & Hlo & Hjoin); [lia |]. cbv zeta in *.
           set (hi := N.lor 0xd800 _) in *. set (lo := N.lor 0xdc00 _) in *.
           assert (hi < 0x10000)%N as Hhib.
           { unfold is_high in Hhi. apply andb_true_iff in Hhi as [_ ?%N.leb_le]. lia. }
           assert (is_low hi = false) as Hnl.
           { unfold is_high in Hhi. apply andb_true_iff in Hhi as [_ ?%N.leb_le].
             unfold is_low. apply andb_false_iff. left. apply N.leb_gt. lia. }
           assert (is_low d = false) as Hlow.
           { unfold is_low. apply andb_false_iff. right. apply N.leb_gt. lia. }
           rewrite (string_app_assoc (u_escape hi)).
           rewrite scanstring_u_high_u, Hnl by done.
           cbn [fused]. rewrite Hlow, andb_false_r.
           assert (u_escape hi +:+ u_escape lo = escape_char d) as Hd'.
           { by rewrite (escape_char_long d Hsd), Hdb. }
           rewrite <- (string_app_assoc (u_escape hi)), Hd', <- string_app_assoc.
           change (escape_char d +:+ escape s) with (escape (d :: s)).
           rewrite IH; [done | simpl; lia | by constructor].
  - rewrite scanstring_escape_char, fused_cons by done.
    rewrite IH; [done | lia | done].
Qed.

Lemma scanstring_escape (s : str) (t : string) :
  is_str s → scanstring (escape s +:+ String dquote t) = Some (fused s, t).
Proof. by apply (scanstring_escape_bounded (length s)). Qed.

(** A string without such a pair is read back as it is. *)
Lemma fused_no_pair (s : str) : has_pair s = false → fused s = s.
Proof.
  induction s as [|c s IH]; [done |]. destruct s as [|d s]; [done |].
  change (has_pair (c :: d :: s)) with ((is_high c && is_low d) || has_pair (d :: s)).
  change (fused (c :: d :: s))
    with (if is_high c && is_low d then join c d :: fused s else c :: fused (d :: s)).
  intros [-> Hrest]%orb_false_iff. by rewrite IH.
Qed.

Lemma wide_small (s : string) : Forall (λ c, (c < 256)%N) (wide s).
Proof.
  unfold wide. induction s as [|x s IH]; [constructor |].
  constructor; [apply N_ascii_bounded | done].
Qed.

Lemma is_str_wide (s : string) : is_str (wide s).
Proof. eapply Forall_impl; [apply wide_small |]. simpl. lia. Qed.

Lemma has_pair_wide (s : string) : has_pair (wide s) = false.
Proof.
  pose proof (wide_small s) as H. induction H as [|c l Hc Hl IH]; [done |].
  destruct l as [|d l]; [done |].
  change (has_pair (c :: d :: l)) with ((is_high c && is_low d) || has_pair (d :: l)).
  rewrite IH, orb_false_r.
  unfold is_high. apply andb_false_iff. left. apply andb_false_iff. left.
  apply N.leb_gt. lia.
Qed.

Lemma fused_wide (s : string) : fused (wide s) = wide s.
Proof. apply fused_no_pair, has_pair_wide. Qed.

Lemma wide_app (a b : string) : wide (a +:+ b) = wide a ++ wide b.
Proof.
  induction a as [|x a IH]; [done |].
  change (wide (String x a +:+ b)) with (N_of_ascii x :: wide (a +:+ b)).
  by rewrite IH.
Qed.

Lemma wide_inj (a b : string) : wide a = wide b → a = b.
Proof.
  unfold wide. revert b. induction a as [|x a IH]; intros [|y b]; try done.
  simpl. intros [= Hxy Hab]. f_equal; [| by apply IH].
  by rewrite <- (ascii_N_embedding x), <- (ascii_N_embedding y), Hxy.
Qed.

(** One round of the member loop on a member that [json_dumps] wrote. *)
Lemma parse_members_step (fuel : nat) (k v : str) (rest : string) (acc : dict) :
  is_str k → is_str v →
  parse_members (S fuel)
    (escape k +:+ String dquote (String ":" (String " "
       (String dquote (escape v +:+ String dquote rest))))) acc
  = match skip_ws rest with
    | String "}" s5 => Some (dict_set (fused k) (fused v) acc, s5)
    | String "," s5 =>
        match skip_ws s5 with
        | String q s6 =>
            if Ascii.eqb q dquote
            then parse_members fuel s6 (dict_set (fused k) (fused v) acc)
            else None
        | "" => None
        end
    | _ => None
    end.
Proof.
  intros Hk Hv. cbn [parse_members]. rewrite scanstring_escape by done.
  run_skip_ws. by rewrite Ascii.eqb_refl, scanstring_escape.
Qed.

Lemma json_dumps_turn (role content : str) :
  json_dumps [(wide "role", role); (wide "content", content)]
  = String "{" (String dquote
      (escape (wide "role") +:+ String dquote (String ":" (String " " (String dquote
        (escape role +:+ String dquote (String "," (String " " (String dquote
          (escape (wide "content") +:+ String dquote (String ":" (String " " (String dquote
            (escape content +:+ String dquote "}")))))))))))))).
Proof.
  unfold json_dumps, json_members, json_member, json_string.
  cbn [fst snd String.append].
  repeat (rewrite !string_app_assoc; cbn [String.append]). reflexivity.
Qed.

(** The dictionary read back from the payload of a turn. *)
Lemma json_loads_dumps_turn (role content : str) :
  is_str role → is_str content →
  json_loads (json_dumps [(wide "role", role); (wide "content", content)])
  = Some [(wide "role", fused role); (wide "content", fused content)].
Proof.
  intros Hrole Hcontent.
  rewrite json_dumps_turn. unfold json_loads, parse_object.
  run_skip_ws. rewrite Ascii.eqb_refl.
  simpl String.length. rewrite parse_members_step by (done || apply is_str_wide).
  run_skip_ws. rewrite Ascii.eqb_refl.
  simpl String.length. rewrite parse_members_step by (done || apply is_str_wide).
  rewrite !fused_wide. reflexivity.
Qed.

(** ... for a turn over code points 0..255. *)
Lemma json_loads_dumps_turn_wide (role content : string) :
  json_loads (json_dumps [(wide "role", wide role); (wide "content", wide content)])
  = Some [(wide "role", wide role); (wide "content", wide content)].
Proof. rewrite json_loads_dumps_turn by apply is_str_wide. by rewrite !fused_wide. Qed.

(** ** The operations of the store, request by request *)

Lemma list_interactions_run (C : string) (w : gcs) :
  list_interactions C w =
    match next_outage w with
    | Some e => (Raise e, answered w)
    | None => (Ok (blob_names (conversation_prefix C) (objects w)), answered w)
    end.
Proof. apply list_blobs_run. Qed.

Lemma save_interaction_run (C : string) (role content : str) (w : gcs) :
  save_interaction C role content w =
    match next_outage w with
    | Some e => (Raise e, answered w)
    | None =>
        match next_outage (answered w) with
        | Some e => (Raise e, answered (answered w))
        | None =>
            (Ok tt, set_objects (insert (next_key C (objects w)) (turn_payload role content))
                      (answered (answered w)))
        end
    end.
Proof.
  unfold save_interaction, mbind, Py_bind. rewrite list_interactions_run.
  destruct (next_outage w); [done |].
  rewrite blob_upload_run. by destruct (next_outage (answered w)).
Qed.

Lemma get_interaction_run (C : string) (n : Z) (w : gcs) :
  get_interaction C n w =
    match next_outage w with
    | Some e => (Raise e, answered w)
    | None =>
        match objects w !! blob_key C n with
        | None => (Ok None, answered w)
        | Some b =>
            match next_outage (answered w) with
            | Some e => (Raise e, answered (answered w))
            | None =>
                match json_loads (blob_data b) with
                | Some d => (Ok (Some d), answered (answered w))
                | None => (Raise (JSONDecodeError (blob_data b)), answered (answered w))
                end
            end
        end
    end.
Proof.
  unfold get_interaction, mbind, Py_bind. rewrite blob_exists_run.
  destruct (next_outage w); [done |].
  destruct (objects w !! blob_key C n) as [b|] eqn:E.
  - rewrite bool_decide_eq_true_2 by eauto.
    rewrite blob_download_run. destruct (next_outage (answered w)); [done |].
    simpl. rewrite E. by destruct (json_loads (blob_data b)).
  - rewrite bool_decide_eq_false_2; [done |]. by intros [? ?].
Qed.

Lemma next_outage_set_objects (f : gmap string blob → gmap string blob) (w : gcs) :
  next_outage (set_objects f w) = next_outage w.
Proof. done. Qed.

Lemma answered_set_objects (f : gmap string blob → gmap string blob) (w : gcs) :
  answered (set_objects f w) = set_objects f (answered w).
Proof. done. Qed.

Lemma answers_S (n : nat) (w : gcs) :
  answers (S n) w = true ↔ next_outage w = None ∧ answers n (answered w) = true.
Proof. simpl. destruct (next_outage w); [split; [done | by intros [? _]] | tauto]. Qed.

(** The number of blobs under a prefix after one blob is stored. *)
Lemma length_blob_names_insert (p k : string) (b : blob) (m : gmap string blob) :
  startswith p k = true →
  length (blob_names p (<[k:=b]> m))
  = match m !! k with
    | Some _ => length (blob_names p m)
    | None => S (length (blob_names p m))
    end.
Proof.
  intros Hk. rewrite !length_blob_names, under_insert_in by done.
  destruct (m !! k) as [c|] eqn:E.
  - apply map_size_insert_Some. exists c. by apply under_lookup_Some.
  - apply map_size_insert_None. apply under_lookup_None. by left.
Qed.

(** ** Append: key and payload (C3) *)

(** A name starts with a prefix when it is the prefix followed by
    something. *)
Lemma startswith_spec (p k : string) : startswith p k = true ↔ ∃ suffix, k = p +:+ suffix.
Proof.
  split; [apply startswith_inv |]. intros [t ->]. apply startswith_app.
Qed.

(** C3.  When both requests of an append are answered, the append returns
    normally and the bucket afterwards is the bucket before with exactly one
    binding written.  Its key is the text [C], a slash, the decimal numeral
    of [n] and [.json], where [n] is one more than the number of the stored
    names that are [C], a slash and a suffix.  Its payload is the text of a
    JSON object with the two members [role] and [content], in this order,
    and decodes to a dictionary with exactly these two fields. *)
Theorem save_interaction_key_payload (C : string) (role content : str) (w : gcs) :
  is_str role → is_str content →
  answers 2 w = true →
  ∃ (listed : list string) (payload : string) (w' : gcs),
    NoDup listed
    ∧ (∀ k, k ∈ listed ↔ is_Some (objects w !! k) ∧ ∃ suffix, k = (C +:+ "/") +:+ suffix)
    ∧ save_interaction C role content w = (Ok tt, w')
    ∧ objects w' =
        <[C +:+ "/" +:+ pretty (Z.of_nat (length listed) + 1) +:+ ".json" :=
            Blob payload "application/json"]> (objects w)
    ∧ payload
      = String "{" (String dquote ("role" +:+ String dquote (": " +:+ json_string role
          +:+ ", " +:+ String dquote ("content" +:+ String dquote (": "
          +:+ json_string content +:+ "}")))))
    ∧ json_loads payload = Some [(wide "role", fused role); (wide "content", fused content)].
Proof.
  intros Hrole Hcontent [H1 [H2 _]%answers_S]%answers_S.
  rewrite save_interaction_run, H1, H2.
  exists (blob_names (conversation_prefix C) (objects w)),
    (json_dumps [(wide "role", role); (wide "content", content)]).
  eexists. split_and!.
  - apply NoDup_blob_names.
  - intros k. by rewrite elem_of_blob_names, startswith_spec.
  - done.
  - done.
  - unfold json_dumps, json_members, json_member. cbn [fst snd].
    change (json_string (wide "role")) with (String dquote ("role" +:+ String dquote "")).
    change (json_string (wide "content")) with (String dquote ("content" +:+ String dquote "")).
    cbn [String.append]. repeat (rewrite !string_app_assoc; cbn [String.append]). done.
  - by apply json_loads_dumps_turn.
Qed.

(** An append that fails leaves the bucket as it was. *)
Lemma save_interaction_failure (C : string) (role content : str) (w w' : gcs) (e : exn) :
  save_interaction C role content w = (Raise e, w') → objects w' = objects w.
Proof.
  rewrite save_interaction_run.
  destruct (next_outage w); [intros ?; by simplify_eq |].
  destruct (next_outage (answered w)); intros ?; by simplify_eq.
Qed.

(** ** Round trip (C2) *)

(** What a [get] reads after an append, for any role and content. *)
Lemma save_then_get_fused (C : string) (role content : str) (w w1 : gcs) :
  is_str role → is_str content →
  save_interaction C role content w = (Ok tt, w1) →
  answers 2 w1 = true →
  ∃ w2, get_interaction C (len (blob_names (conversation_prefix C) (objects w)) + 1) w1
        = (Ok (Some [(wide "role", fused role); (wide "content", fused content)]), w2).
Proof.
  intros Hrole Hcontent. rewrite save_interaction_run.
  destruct (next_outage w); [done |].
  destruct (next_outage (answered w)); [done |]. intros [= <-].
  intros [H1 [H2 _]%answers_S]%answers_S.
  unfold next_key in *.
  rewrite get_interaction_run, H1. simpl.
  rewrite lookup_insert_eq. simpl in H2. rewrite H2. simpl.
  rewrite json_loads_dumps_turn by done. eauto.
Qed.

(** C2, as amended.  After an append of [{role, content}] to conversation
    [C] has returned, a [get] at the sequence number which that append
    assigned (one more than the number of names listed under [C/] when it
    ran) returns a dictionary with exactly that role and that content,
    provided that neither string holds a high surrogate immediately
    followed by a low surrogate, and that the two requests of the [get] are
    answered.  The role and the content range over all Python strings. *)
Theorem save_then_get_roundtrip (C : string) (role content : str) (w w1 : gcs) :
  is_str role → is_str content →
  has_pair role = false → has_pair content = false →
  save_interaction C role content w = (Ok tt, w1) →
  answers 2 w1 = true →
  ∃ w2, get_interaction C (len (blob_names (conversation_prefix C) (objects w)) + 1) w1
        = (Ok (Some [(wide "role", role); (wide "content", content)]), w2).
Proof.
  intros Hrole Hcontent Hr Hc Hsave Hans.
  destruct (save_then_get_fused C role content w w1 Hrole Hcontent Hsave Hans) as [w2 Hget].
  exists w2. by rewrite (fused_no_pair role Hr), (fused_no_pair content Hc) in Hget.
Qed.

(** ** Absent turns (C6) *)

(** C6.  When no blob is stored under the key of [(C, n)], [get] returns
    [None] without raising and leaves the bucket as it is, as soon as the
    existence request is answered; the absence itself is never reported by
    an exception, for the only exception that can come out is the failure
    of that request. *)
Theorem get_interaction_absent (C : string) (n : Z) (w : gcs) :
  objects w !! blob_key C n = None →
  (answers 1 w = true → get_interaction C n w = (Ok None, answered w))
  ∧ (∀ e w', get_interaction C n w = (Raise e, w') → next_outage w = Some e).
Proof.
  intros Habs. rewrite get_interaction_run, Habs. split.
  - intros [H1 _]%answers_S. by rewrite H1.
  - intros e w'. destruct (next_outage w); [| done]. by intros [= -> _].
Qed.

(** ** Append then list (C1) *)

(** C1, as amended.  Listing [C], appending to [C] and listing [C] again,
    with all four requests answered: the second listing is exactly one
    longer than the first if no blob was stored under the key that the
    append derives, and as long as the first if there was one; in both
    cases that key holds the new turn afterwards (the append replaces the
    blob that was there). *)
Theorem append_then_list_length (C : string) (role content : str) (w : gcs) :
  answers 4 w = true →
  ∃ l0 l1 w',
    (l0 ← list_interactions C;
     save_interaction C role content ;;
     l1 ← list_interactions C;
     mret (l0, l1)) w = (Ok (l0, l1), w')
    ∧ (objects w !! blob_key C (len l0 + 1) = None → length l1 = S (length l0))
    ∧ (is_Some (objects w !! blob_key C (len l0 + 1)) → length l1 = length l0)
    ∧ objects w' !! blob_key C (len l0 + 1) = Some (turn_payload role content).
Proof.
  intros (H1 & (H2 & (H3 & (H4 & _)%answers_S)%answers_S)%answers_S)%answers_S.
  unfold mbind, Py_bind.
  rewrite list_interactions_run, H1, save_interaction_run, H2, H3.
  rewrite list_interactions_run, next_outage_set_objects, H4.
  do 3 eexists. split; [reflexivity |].
  unfold next_key. simpl objects. rewrite length_blob_names_insert by apply blob_key_startswith.
  split_and!.
  - by intros ->.
  - by intros [b ->].
  - apply lookup_insert_eq.
Qed.

(** ** The deletion loop of [clear_storage] *)

Lemma for_each_cons {S A} (x : A) (xs : list A) (body : A → Py S unit) (s : S) :
  for_each (x :: xs) body s =
    match body x s with
    | (Ok _, s') => for_each xs body s'
    | (Raise e, s') => (Raise e, s')
    end.
Proof. done. Qed.

Lemma answers_set_objects (n : nat) (f : gmap string blob → gmap string blob) (w : gcs) :
  answers n (set_objects f w) = answers n w.
Proof.
  revert w. induction n as [|n IH]; intros w; simpl; [done |].
  rewrite next_outage_set_objects, answered_set_objects.
  destruct (next_outage w); [done | apply IH].
Qed.

(** Whatever its outcome, the loop only removes blobs, and only blobs named
    in the list; it prints nothing. *)
Lemma delete_loop_frame (l : list string) (w w' : gcs) (r : result unit) :
  for_each l blob_delete w = (r, w') →
  stdout w' = stdout w
  ∧ ∀ j, (objects w' !! j = objects w !! j)
         ∨ (j ∈ l ∧ objects w' !! j = None).
Proof.
  revert w. induction l as [|k l IH]; intros w H.
  - injection H as <- <-. eauto.
  - rewrite for_each_cons, blob_delete_run in H.
    destruct (next_outage w).
    { injection H as <- <-. eauto. }
    destruct (objects w !! k) as [b|] eqn:E.
    + apply IH in H as [Hout Hobj]. split; [done |]. intros j.
      destruct (Hobj j) as [Hj | [Hj1 Hj2]].
      * simpl in Hj. destruct (decide (k = j)) as [-> | Hne].
        -- right. rewrite lookup_delete_eq in Hj. split; [left | done].
        -- left. by rewrite lookup_delete_ne in Hj.
      * right. split; [by right | done].
    + injection H as <- <-. eauto.
Qed.

(** With every request answered, the loop over names that are all stored
    (and pairwise different) completes and leaves none of them. *)
Lemma delete_loop_ok (l : list string) (w : gcs) :
  NoDup l →
  (∀ k, k ∈ l → is_Some (objects w !! k)) →
  answers (length l) w = true →
  ∃ w', for_each l blob_delete w = (Ok tt, w')
        ∧ ∀ j, j ∈ l → objects w' !! j = None.
Proof.
  revert w. induction l as [|k l IH]; intros w Hnd Hin Hans.
  - exists w. split; [done |]. by intros j ?%elem_of_nil.
  - apply NoDup_cons in Hnd as [Hk Hnd].
    apply answers_S in Hans as [H1 Hans].
    rewrite for_each_cons, blob_delete_run, H1.
    destruct (Hin k) as [b Hb]; [left |]. rewrite Hb.
    destruct (IH (set_objects (delete k) (answered w))) as (w' & Hrun & Hgone).
    + done.
    + intros j Hj. simpl. rewrite lookup_delete_ne by (intros ->; done).
      apply Hin. by right.
    + by rewrite answers_set_objects.
    + exists w'. split; [done |]. intros j Hj.
      apply elem_of_cons in Hj as [-> | Hj]; [| by apply Hgone].
      destruct (delete_loop_frame _ _ _ _ Hrun) as [_ Hfr].
      destruct (Hfr k) as [Hj | [_ Hj]]; [| done].
      rewrite Hj. simpl. apply lookup_delete_eq.
Qed.

(** A request that is not answered stops the loop with an exception. *)
Lemma delete_loop_fail (l : list string) (w : gcs) :
  answers (length l) w = false →
  ∃ e w', for_each l blob_delete w = (Raise e, w').
Proof.
  revert w. induction l as [|k l IH]; intros w Hans; [done |].
  rewrite for_each_cons, blob_delete_run. simpl in Hans.
  destruct (next_outage w); [eauto |].
  destruct (objects w !! k); [| eauto].
  apply IH. by rewrite answers_set_objects.
Qed.

Lemma clear_storage_run (C : string) (w : gcs) :
  clear_storage C w =
    match next_outage w with
    | Some e => (Ok (-1), report_clear_failure e (answered w))
    | None =>
        let blobs := blob_names (conversation_prefix C) (objects w) in
        match for_each blobs blob_delete (answered w) with
        | (Ok _, w') => (Ok (len blobs), w')
        | (Raise e, w') => (Ok (-1), report_clear_failure e w')
        end
    end.
Proof.
  unfold clear_storage, try_except, mbind, Py_bind. rewrite list_blobs_run.
  destruct (next_outage w); [done |]. simpl.
  by destruct (for_each _ blob_delete (answered w)) as [[[]|e] w'].
Qed.

Lemma blob_names_nil (p : string) (m : gmap string blob) :
  (∀ k, startswith p k = true → m !! k = None) → blob_names p m = [].
Proof.
  intros H. apply elem_of_nil_inv. intros k [[b Hb] Hk]%elem_of_blob_names.
  rewrite (H k Hk) in Hb. done.
Qed.

(** ** Clear: sentinel and count (C5, C4) *)

(** C5.  [clear_storage] always returns normally.  Its value is the number
    of names listed under the prefix when the listing request and one
    deletion request per listed name are all answered, and [-1] as soon as
    one of these requests fails; the count is never negative, so the sign
    tells success from failure. *)
Theorem clear_storage_never_raises (C : string) (w : gcs) :
  let blobs := blob_names (conversation_prefix C) (objects w) in
  0 ≤ len blobs
  ∧ ∃ w', clear_storage C w
          = (Ok (if answers (S (length blobs)) w then len blobs else -1), w').
Proof.
  intros blobs. split; [unfold len; lia |].
  rewrite clear_storage_run. simpl answers.
  destruct (next_outage w); [eauto |]. fold blobs. simpl.
  destruct (answers (length blobs) (answered w)) eqn:Hans.
  - destruct (delete_loop_ok blobs (answered w)) as (w' & -> & _); eauto.
    + apply NoDup_blob_names.
    + by intros k [? _]%elem_of_blob_names.
  - destruct (delete_loop_fail blobs (answered w) Hans) as (e & w' & ->). eauto.
Qed.

(** What a non-negative return value of [clear_storage] tells about the
    bucket: the value is the number of names listed, and no blob under the
    prefix is left. *)
Lemma clear_storage_nonneg (C : string) (w w' : gcs) (n : Z) :
  clear_storage C w = (Ok n, w') →
  0 ≤ n →
  n = len (blob_names (conversation_prefix C) (objects w))
  ∧ (∀ k, startswith (conversation_prefix C) k = true → objects w' !! k = None).
Proof.
  intros Hrun Hn. rewrite clear_storage_run in Hrun.
  destruct (next_outage w) eqn:H1; [simplify_eq; lia |]. simpl in Hrun.
  set (blobs := blob_names (conversation_prefix C) (objects w)) in *.
  destruct (for_each blobs blob_delete (answered w)) as [[[]|e] w1] eqn:Hloop;
    [| simplify_eq; lia].
  injection Hrun as <- <-. split; [done |]. intros k Hk.
  destruct (objects w !! k) as [b|] eqn:Hb.
  - destruct (answers (length blobs) (answered w)) eqn:Hans.
    + destruct (delete_loop_ok blobs (answered w)) as (w2 & Hrun2 & Hgone); eauto.
      * apply NoDup_blob_names.
      * by intros j [? _]%elem_of_blob_names.
      * rewrite Hloop in Hrun2. injection Hrun2 as <-. apply Hgone.
        apply elem_of_blob_names. eauto.
    + destruct (delete_loop_fail blobs (answered w) Hans) as (e & w2 & Hrun2).
      by rewrite Hloop in Hrun2.
  - destruct (delete_loop_frame _ _ _ _ Hloop) as [_ Hfr].
    destruct (Hfr k) as [Hj | [_ Hj]]; [| done]. by rewrite Hj.
Qed.

(** C4.  When [clear_storage] succeeds (returns a non-negative value), that
    value is the number of names that were listed under the prefix of [C]
    immediately before the call, no blob under the prefix is left, and a
    listing of [C] made next returns the empty list. *)
Theorem clear_storage_success (C : string) (w w' : gcs) (n : Z) :
  clear_storage C w = (Ok n, w') →
  0 ≤ n →
  n = len (blob_names (conversation_prefix C) (objects w))
  ∧ (∀ k, startswith (conversation_prefix C) k = true → objects w' !! k = None)
  ∧ (∀ l w'', list_interactions C w' = (Ok l, w'') → l = []).
Proof.
  intros Hrun Hn.
  destruct (clear_storage_nonneg C w w' n Hrun Hn) as [Hcount Hgone].
  split; [done |]. split; [done |].
  intros l w'' Hlist. rewrite list_interactions_run in Hlist.
  destruct (next_outage w'); [done |]. injection Hlist as <- _.
  by apply blob_names_nil.
Qed.

(** ** Prefix isolation (C10) *)

Lemma agree_on_next_outage (C : string) (w1 w2 : gcs) :
  agree_on C w1 w2 → next_outage w1 = next_outage w2.
Proof. intros [H _]. unfold next_outage. by rewrite H. Qed.

Lemma agree_on_answered (C : string) (w1 w2 : gcs) :
  agree_on C w1 w2 → agree_on C (answered w1) (answered w2).
Proof. intros [H1 H2]. split; simpl; [by rewrite H1 | done]. Qed.

Lemma agree_on_blob_names (C : string) (w1 w2 : gcs) :
  agree_on C w1 w2 →
  blob_names (conversation_prefix C) (objects w1)
  = blob_names (conversation_prefix C) (objects w2).
Proof. intros [_ H]. by apply blob_names_agree. Qed.

Lemma agree_on_set_objects (C : string) (f : gmap string blob → gmap string blob)
    (w1 w2 : gcs) :
  (∀ m1 m2 j, m1 !! j = m2 !! j → f m1 !! j = f m2 !! j) →
  agree_on C w1 w2 → agree_on C (set_objects f w1) (set_objects f w2).
Proof. intros Hf [H1 H2]. split; simpl; [done |]. intros j Hj. apply Hf. by apply H2. Qed.

(** The deletion loop over names under [C/] has the same outcome in two
    worlds that agree on [C]. *)
Lemma delete_loop_agree (C : string) (l : list string) (w1 w2 : gcs) :
  (∀ k, k ∈ l → startswith (conversation_prefix C) k = true) →
  agree_on C w1 w2 →
  (for_each l blob_delete w1).1 = (for_each l blob_delete w2).1
  ∧ agree_on C (for_each l blob_delete w1).2 (for_each l blob_delete w2).2.
Proof.
  revert w1 w2. induction l as [|k l IH]; intros w1 w2 Hl Hag; [done |].
  rewrite !for_each_cons, !blob_delete_run.
  rewrite <- (agree_on_next_outage C w1 w2 Hag).
  pose proof (agree_on_answered C w1 w2 Hag) as Hag'.
  destruct (next_outage w1); [by split |].
  destruct Hag as [_ Hobj]. rewrite <- (Hobj k) by (apply Hl; left).
  destruct (objects w1 !! k); [| by split].
  apply IH; [intros j Hj; apply Hl; by right |].
  apply agree_on_set_objects; [| done].
  intros m1 m2 j Hj. destruct (decide (k = j)) as [-> | Hne].
  - by rewrite !lookup_delete_eq.
  - by rewrite !lookup_delete_ne.
Qed.

Lemma save_interaction_frame (C : string) (role content : str) (k : string) (w : gcs) :
  startswith (conversation_prefix C) k = false →
  objects (save_interaction C role content w).2 !! k = objects w !! k.
Proof.
  intros Hk. rewrite save_interaction_run.
  destruct (next_outage w); [done |].
  destruct (next_outage (answered w)); [done |]. simpl.
  apply lookup_insert_ne. intros <-. unfold next_key in Hk.
  by rewrite blob_key_startswith in Hk.
Qed.

Lemma clear_storage_frame (C k : string) (w : gcs) :
  startswith (conversation_prefix C) k = false →
  objects (clear_storage C w).2 !! k = objects w !! k.
Proof.
  intros Hk. rewrite clear_storage_run.
  destruct (next_outage w); [done |]. simpl.
  destruct (for_each _ blob_delete (answered w)) as [r w'] eqn:Hloop.
  destruct (delete_loop_frame _ _ _ _ Hloop) as [_ Hfr].
  assert (objects w' !! k = objects w !! k) as Hsame.
  { destruct (Hfr k) as [? | [[_ Hin]%elem_of_blob_names _]]; [done |].
    by rewrite Hk in Hin. }
  by destruct r.
Qed.

Lemma list_interactions_objects (C : string) (w : gcs) :
  objects (list_interactions C w).2 = objects w.
Proof. rewrite list_interactions_run. by destruct (next_outage w). Qed.

Lemma get_interaction_objects (C : string) (n : Z) (w : gcs) :
  objects (get_interaction C n w).2 = objects w.
Proof.
  rewrite get_interaction_run.
  destruct (next_outage w); [done |].
  destruct (objects w !! blob_key C n); [| done].
  destruct (next_outage (answered w)); [done |].
  by destruct (json_loads _).
Qed.

Lemma save_interaction_agree (C : string) (role content : str) (w1 w2 : gcs) :
  agree_on C w1 w2 →
  (save_interaction C role content w1).1 = (save_interaction C role content w2).1.
Proof.
  intros Hag. rewrite !save_interaction_run.
  rewrite <- (agree_on_next_outage C w1 w2 Hag).
  rewrite <- (agree_on_next_outage C _ _ (agree_on_answered C w1 w2 Hag)).
  destruct (next_outage w1); [done |]. by destruct (next_outage (answered w1)).
Qed.

Lemma clear_storage_agree (C : string) (w1 w2 : gcs) :
  agree_on C w1 w2 → (clear_storage C w1).1 = (clear_storage C w2).1.
Proof.
  intros Hag. rewrite !clear_storage_run.
  rewrite <- (agree_on_next_outage C w1 w2 Hag), <- (agree_on_blob_names C w1 w2 Hag).
  destruct (next_outage w1); [done |]. simpl.
  destruct (delete_loop_agree C (blob_names (conversation_prefix C) (objects w1))
              (answered w1) (answered w2)) as [Hres _].
  { by intros k [_ ?]%elem_of_blob_names. }
  { by apply agree_on_answered. }
  destruct (for_each _ blob_delete (answered w1)) as [[[]|e1] w1'],
           (for_each _ blob_delete (answered w2)) as [[[]|e2] w2']; by simplify_eq/=.
Qed.

Lemma list_interactions_agree (C : string) (w1 w2 : gcs) :
  agree_on C w1 w2 → (list_interactions C w1).1 = (list_interactions C w2).1.
Proof.
  intros Hag. rewrite !list_interactions_run.
  rewrite <- (agree_on_next_outage C w1 w2 Hag), <- (agree_on_blob_names C w1 w2 Hag).
  by destruct (next_outage w1).
Qed.

Lemma get_interaction_agree (C : string) (n : Z) (w1 w2 : gcs) :
  agree_on C w1 w2 → (get_interaction C n w1).1 = (get_interaction C n w2).1.
Proof.
  intros Hag. rewrite !get_interaction_run.
  rewrite <- (agree_on_next_outage C w1 w2 Hag).
  rewrite <- (agree_on_next_outage C _ _ (agree_on_answered C w1 w2 Hag)).
  destruct Hag as [_ Hobj]. rewrite <- (Hobj (blob_key C n)) by apply blob_key_startswith.
  destruct (next_outage w1); [done |].
  destruct (objects w1 !! blob_key C n); [| done].
  destruct (next_outage (answered w1)); [done |]. by destruct (json_loads _).
Qed.

(** A key cannot lie under the prefixes of two unrelated conversations. *)
Lemma unrelated_prefixes (C D k : string) :
  C ≠ D →
  startswith (conversation_prefix C) D = false →
  startswith (conversation_prefix D) C = false →
  startswith (conversation_prefix D) k = true →
  startswith (conversation_prefix C) k = false.
Proof.
  intros Hne HCD HDC HDk.
  destruct (startswith (conversation_prefix C) k) eqn:HCk; [| done].
  destruct (startswith_comparable _ _ _ HCk HDk) as [H | H];
    apply conversation_prefix_nested in H as [? | H]; congruence.
Qed.

(** C10.  The names under [C/] are the names that are [C], a slash and a
    suffix.  An operation on conversation [C] writes and deletes only blobs
    whose name is under [C/], and its outcome depends only on those blobs
    (and on the service).  Hence, for a different conversation [D] such
    that neither identifier is the other followed by a slash and a suffix,
    append and clear on [C] leave every blob under [D/] as it is and a
    listing of [C] returns no name under [D/].  But when [D] starts with
    [C/], a clear of [C] whose requests are answered returns the number of
    names under [C/] and removes every blob under [D/] (as does every clear
    that returns a count), and a listing of [C] that is answered returns,
    and so counts, every stored name under [D/]. *)
Theorem conversation_isolation (C : string) :
  (∀ k, startswith (conversation_prefix C) k = true ↔ ∃ suffix, k = (C +:+ "/") +:+ suffix)
  ∧ (∀ w k, startswith (conversation_prefix C) k = false →
     (∀ role content, objects (save_interaction C role content w).2 !! k = objects w !! k)
     ∧ objects (clear_storage C w).2 !! k = objects w !! k
     ∧ objects (list_interactions C w).2 !! k = objects w !! k
     ∧ (∀ n, objects (get_interaction C n w).2 !! k = objects w !! k))
  ∧ (∀ w1 w2, agree_on C w1 w2 →
     (∀ role content,
        (save_interaction C role content w1).1 = (save_interaction C role content w2).1)
     ∧ (clear_storage C w1).1 = (clear_storage C w2).1
     ∧ (list_interactions C w1).1 = (list_interactions C w2).1
     ∧ (∀ n, (get_interaction C n w1).1 = (get_interaction C n w2).1))
  ∧ (∀ w l w', list_interactions C w = (Ok l, w') →
       ∀ k, k ∈ l → startswith (conversation_prefix C) k = true)
  ∧ (∀ D, C ≠ D →
     startswith (conversation_prefix C) D = false →
     startswith (conversation_prefix D) C = false →
     ∀ w k, startswith (conversation_prefix D) k = true →
       (∀ role content, objects (save_interaction C role content w).2 !! k = objects w !! k)
       ∧ objects (clear_storage C w).2 !! k = objects w !! k
       ∧ (∀ l w', list_interactions C w = (Ok l, w') → k ∉ l))
  ∧ (∀ D, startswith (conversation_prefix C) D = true →
     ∀ w,
       (answers (S (length (blob_names (conversation_prefix C) (objects w)))) w = true →
          ∃ w', clear_storage C w
                = (Ok (len (blob_names (conversation_prefix C) (objects w))), w')
                ∧ ∀ k, startswith (conversation_prefix D) k = true → objects w' !! k = None)
       ∧ (∀ k n w', startswith (conversation_prefix D) k = true →
          clear_storage C w = (Ok n, w') → 0 ≤ n → objects w' !! k = None)
       ∧ (answers 1 w = true →
          ∃ l w', list_interactions C w = (Ok l, w')
                  ∧ (∀ k, startswith (conversation_prefix D) k = true →
                          is_Some (objects w !! k) → k ∈ l)
                  ∧ (length (blob_names (conversation_prefix D) (objects w)) ≤ length l)%nat)).
Proof.
  assert (Hlist : ∀ w l w', list_interactions C w = (Ok l, w') →
                    l = blob_names (conversation_prefix C) (objects w)).
  { intros w l w'. rewrite list_interactions_run.
    destruct (next_outage w); [done |]. by intros [= <- _]. }
  split_and!.
  - intros k. unfold conversation_prefix. split; [apply startswith_inv |].
    intros [t ->]. apply startswith_app.
  - intros w k Hk. split_and!.
    + intros. by apply save_interaction_frame.
    + by apply clear_storage_frame.
    + by rewrite list_interactions_objects.
    + intros. by rewrite get_interaction_objects.
  - intros w1 w2 Hag. split_and!.
    + intros. by apply save_interaction_agree.
    + by apply clear_storage_agree.
    + by apply list_interactions_agree.
    + intros. by apply get_interaction_agree.
  - intros w l w' ->%Hlist k [_ ?]%elem_of_blob_names. done.
  - intros D Hne HCD HDC w k HDk.
    pose proof (unrelated_prefixes C D k Hne HCD HDC HDk) as HCk. split_and!.
    + intros. by apply save_interaction_frame.
    + by apply clear_storage_frame.
    + intros l w' ->%Hlist [_ ?]%elem_of_blob_names. congruence.
  - intros D HCD w.
    assert (Hsub : ∀ k, startswith (conversation_prefix D) k = true →
                        startswith (conversation_prefix C) k = true).
    { intros k Hk. apply (startswith_trans _ D); [done |].
      apply (startswith_trans _ (conversation_prefix D)); [| done].
      apply startswith_app. }
    split_and!.
    + intros [H1 Hans]%answers_S.
      set (blobs := blob_names (conversation_prefix C) (objects w)) in *.
      destruct (delete_loop_ok blobs (answered w)) as (w' & Hloop & _).
      { apply NoDup_blob_names. }
      { by intros k [? _]%elem_of_blob_names. }
      { done. }
      assert (clear_storage C w = (Ok (len blobs), w')) as Hrun.
      { rewrite clear_storage_run, H1. cbv zeta. fold blobs. by rewrite Hloop. }
      exists w'. split; [done |]. intros k HDk.
      destruct (clear_storage_nonneg C w w' (len blobs) Hrun) as [_ Hgone];
        [unfold len; lia | auto].
    + intros k n w' HDk Hrun Hn.
      destruct (clear_storage_nonneg C w w' n Hrun Hn) as [_ Hgone]. auto.
    + intros [H1 _]%answers_S. rewrite list_interactions_run, H1.
      do 2 eexists. split; [done |]. split.
      * intros k HDk Hk. apply elem_of_blob_names. auto.
      * apply submseteq_length, NoDup_submseteq; [apply NoDup_blob_names |].
        intros k [? ?]%elem_of_blob_names. apply elem_of_blob_names. auto.
Qed.

(** ** Immutability of stored turns (C7) *)

Lemma independent_spec (ids : list string) (C D : string) :
  independent ids = true → C ∈ ids → D ∈ ids → C ≠ D →
  startswith (conversation_prefix C) D = false
  ∧ startswith (conversation_prefix D) C = false.
Proof.
  unfold independent. rewrite forallb_forall. intros Hall HC HD Hne.
  apply list_elem_of_In in HC, HD.
  specialize (Hall C HC). rewrite forallb_forall in Hall. specialize (Hall D HD).
  apply orb_true_iff in Hall as [Heq%String.eqb_eq | Hn]; [done |].
  apply negb_true_iff, orb_false_iff in Hn. done.
Qed.

Lemma slash_free_app_slash (C t : string) : slash_free (C +:+ String "/" t) = false.
Proof. induction C as [|c C IH]; simpl; [done |]. rewrite IH. apply andb_false_r. Qed.

Lemma slash_free_not_nested (C D : string) :
  slash_free D = true → startswith (conversation_prefix C) D = false.
Proof.
  intros HD. destruct (startswith (conversation_prefix C) D) eqn:H; [| done].
  apply startswith_inv in H as [t ->]. unfold conversation_prefix in HD.
  rewrite string_app_assoc in HD. simpl in HD. by rewrite slash_free_app_slash in HD.
Qed.

(** Identifiers without a slash are independent. *)
Lemma slash_free_independent (ids : list string) :
  Forall (λ C, slash_free C = true) ids → independent ids = true.
Proof.
  rewrite Forall_forall. intros Hsf. unfold independent.
  apply forallb_forall. intros C HC%list_elem_of_In.
  apply forallb_forall. intros D HD%list_elem_of_In.
  apply orb_true_iff. right. unfold nested.
  by rewrite !slash_free_not_nested by auto.
Qed.

Lemma numbered_length (C : string) (n : nat) (m : gmap string blob) :
  numbered C n m → length (blob_names (conversation_prefix C) m) = n.
Proof.
  intros Hnum.
  assert (blob_names (conversation_prefix C) m
          ≡ₚ (λ i : nat, blob_key C (Z.of_nat i)) <$> seq 1 n) as ->.
  { apply NoDup_Permutation.
    - apply NoDup_blob_names.
    - apply NoDup_fmap_2; [| apply NoDup_seq].
      intros i j Hij%blob_key_inj. lia.
    - intros k. rewrite elem_of_blob_names, (Hnum k), list_elem_of_fmap.
      split.
      + intros (i & Hi & ->). exists i. split; [done |]. apply elem_of_seq. lia.
      + intros (i & -> & Hi%elem_of_seq). exists i. split; [lia | done]. }
  by rewrite length_fmap, length_seq.
Qed.

(** In a gap-free bucket the key of the next append is not taken. *)
Lemma numbered_next_key_free (C : string) (n : nat) (m : gmap string blob) :
  numbered C n m → m !! next_key C m = None.
Proof.
  intros Hnum. unfold next_key, len. rewrite (numbered_length C n m Hnum).
  destruct (m !! blob_key C (Z.of_nat n + 1)) as [b|] eqn:E; [| done].
  destruct (proj1 (Hnum (blob_key C (Z.of_nat n + 1)))) as (i & Hi & Hkey).
  { split; [eauto | apply blob_key_startswith]. }
  apply blob_key_inj in Hkey. lia.
Qed.

(** A clear only removes blobs, and only under its prefix. *)
Lemma clear_storage_keeps_or_removes (w : gcs) (C k : string) (b : blob) :
  objects w !! k = Some b →
  objects (clear_storage C w).2 !! k = Some b
  ∨ (startswith (conversation_prefix C) k = true
     ∧ objects (clear_storage C w).2 !! k = None).
Proof.
  intros Hk. destruct (startswith (conversation_prefix C) k) eqn:Hpre.
  - rewrite clear_storage_run.
    destruct (next_outage w); [by left |]. simpl.
    destruct (for_each _ blob_delete (answered w)) as [r w'] eqn:Hloop.
    destruct (delete_loop_frame _ _ _ _ Hloop) as [_ Hfr].
    assert (objects w' !! k = Some b ∨ objects w' !! k = None) as Hcases.
    { destruct (Hfr k) as [-> | [_ ->]]; [by left | by right]. }
    destruct r; simpl; destruct Hcases as [-> | ->]; auto.
  - left. by rewrite clear_storage_frame.
Qed.

Section single_writer.

Context (ids : list string) (Hind : independent ids = true).

Lemma independent_disjoint (C D k : string) :
  C ∈ ids → D ∈ ids → C ≠ D →
  startswith (conversation_prefix D) k = true →
  startswith (conversation_prefix C) k = false.
Proof.
  intros HC HD Hne.
  destruct (independent_spec ids C D Hind HC HD Hne) as [H1 H2].
  by apply unrelated_prefixes.
Qed.

Lemma gap_free_empty : gap_free ids ∅.
Proof.
  intros C _. exists 0%nat. intros k. split.
  - intros [[b Hb] _]. by rewrite lookup_empty in Hb.
  - intros (i & Hi & _). lia.
Qed.

Lemma gap_free_append (C : string) (b : blob) (m : gmap string blob) :
  C ∈ ids → gap_free ids m → gap_free ids (<[next_key C m := b]> m).
Proof.
  intros HC Hgf D HD. destruct (Hgf D HD) as [n Hnum].
  destruct (decide (C = D)) as [<- | Hne].
  - exists (S n). intros k.
    pose proof (numbered_length C n m Hnum) as Hlen.
    assert (next_key C m = blob_key C (Z.of_nat (S n))) as Hnext.
    { unfold next_key, len. rewrite Hlen. f_equal. lia. }
    rewrite Hnext. split.
    + intros [Hk Hpre]. destruct (decide (blob_key C (Z.of_nat (S n)) = k)) as [<- | Hk'].
      * exists (S n). split; [lia | done].
      * rewrite lookup_insert_ne in Hk by done.
        destruct (proj1 (Hnum k)) as (i & Hi & ->); [done |].
        exists i. split; [lia | done].
    + intros (i & Hi & ->). split; [| apply blob_key_startswith].
      destruct (decide (i = S n)) as [-> | Hi'].
      * rewrite lookup_insert_eq. eauto.
      * rewrite lookup_insert_ne by (intros ?%blob_key_inj; lia).
        apply (Hnum (blob_key C (Z.of_nat i))). exists i. split; [lia | done].
  - exists n. intros k. rewrite <- (Hnum k).
    destruct (decide (next_key C m = k)) as [<- | Hk'].
    + assert (startswith (conversation_prefix D) (next_key C m) = false) as ->.
      { apply (independent_disjoint D C); [done.. | congruence | apply blob_key_startswith]. }
      split; intros [_ ?]; done.
    + by rewrite lookup_insert_ne.
Qed.

Lemma gap_free_clear (C : string) (m m' : gmap string blob) :
  C ∈ ids → gap_free ids m →
  (∀ k, startswith (conversation_prefix C) k = true → m' !! k = None) →
  (∀ k, startswith (conversation_prefix C) k = false → m' !! k = m !! k) →
  gap_free ids m'.
Proof.
  intros HC Hgf Hin Hout D HD.
  destruct (decide (C = D)) as [<- | Hne].
  - exists 0%nat. intros k. split.
    + intros [[b Hb] Hk]. by rewrite (Hin k Hk) in Hb.
    + intros (i & Hi & _). lia.
  - destruct (Hgf D HD) as [n Hnum]. exists n. intros k. rewrite <- (Hnum k).
    destruct (startswith (conversation_prefix D) k) eqn:Hk;
      [| split; intros [_ ?]; done].
    rewrite Hout; [done |]. by apply (independent_disjoint C D).
Qed.

(** The numbering of every conversation of the writer stays gap-free. *)
Lemma reachable_gap_free (w : gcs) : reachable ids w → gap_free ids (objects w).
Proof.
  induction 1 as [w Hw | w C role content _ IH HC | w C n _ IH HC Hrun Hn
                 | w C _ IH | w C n _ IH].
  - rewrite Hw. apply gap_free_empty.
  - rewrite save_interaction_run.
    destruct (next_outage w); [done |].
    destruct (next_outage (answered w)); [done |]. simpl.
    by apply gap_free_append.
  - destruct (clear_storage C w) as [r w'] eqn:Hclear. simpl in *. subst r.
    destruct (clear_storage_nonneg C w w' n Hclear Hn) as [_ Hgone].
    apply (gap_free_clear C (objects w)); [done.. |].
    intros k Hk. pose proof (clear_storage_frame C k w Hk) as Hfr.
    by rewrite Hclear in Hfr.
  - by rewrite list_interactions_objects.
  - by rewrite get_interaction_objects.
Qed.

(** So the key that the next append derives is free. *)
Lemma reachable_next_key_free (w : gcs) (C : string) :
  reachable ids w → C ∈ ids → objects w !! next_key C (objects w) = None.
Proof.
  intros Hw HC. destruct (reachable_gap_free w Hw C HC) as [n Hnum].
  by apply (numbered_next_key_free C n).
Qed.

(** Hence, for such a writer, append then list is always one longer. *)
Lemma reachable_append_then_list (w : gcs) (C : string) (role content : str) :
  reachable ids w → C ∈ ids →
  answers 3 w = true →
  ∃ l w',
    (save_interaction C role content ;; list_interactions C) w = (Ok l, w')
    ∧ length l = S (length (blob_names (conversation_prefix C) (objects w))).
Proof.
  intros Hw HC (H1 & (H2 & (H3 & _)%answers_S)%answers_S)%answers_S.
  unfold mbind, Py_bind. rewrite save_interaction_run, H1, H2.
  rewrite list_interactions_run, next_outage_set_objects, H3.
  do 2 eexists. split; [reflexivity |]. simpl objects. unfold next_key.
  rewrite length_blob_names_insert by apply blob_key_startswith.
  fold (next_key C (objects w)). by rewrite reachable_next_key_free.
Qed.

(** An append into a reachable world leaves every stored blob as it is. *)
Lemma reachable_append_keeps (w : gcs) (C : string) (role content : str) (k : string)
    (b : blob) :
  reachable ids w → C ∈ ids →
  objects w !! k = Some b →
  objects (save_interaction C role content w).2 !! k = Some b.
Proof.
  intros Hw HC Hk. rewrite save_interaction_run.
  destruct (next_outage w); [done |].
  destruct (next_outage (answered w)); [done |]. simpl.
  rewrite lookup_insert_ne; [done |]. intros <-.
  rewrite (reachable_next_key_free w C Hw HC) in Hk. done.
Qed.

(** C7, as amended.  Take a single writer whose conversation identifiers
    are independent (none is another one followed by a slash and a suffix).
    In every world it reaches from an empty bucket by appends and
    successful clears, a stored blob is changed by no operation: an append
    to one of its conversations leaves the blob as it is, and a clear
    either leaves it as it is or removes it, the latter only when its name
    lies under the prefix being cleared. *)
Theorem stored_turns_immutable (w : gcs) (k : string) (b : blob) :
  reachable ids w →
  objects w !! k = Some b →
  (∀ C role content, C ∈ ids →
     objects (save_interaction C role content w).2 !! k = Some b)
  ∧ (∀ C, objects (clear_storage C w).2 !! k = Some b
          ∨ (startswith (conversation_prefix C) k = true
             ∧ objects (clear_storage C w).2 !! k = None)).
Proof.
  intros Hw Hk. split.
  - intros C role content HC. by apply reachable_append_keeps.
  - intros C. by apply clear_storage_keeps_or_removes.
Qed.

End single_writer.

(** ** The chat session *)

Lemma change_model_run (name : string) (w : vertex) :
  change_model name w =
    match rejects w name with
    | Some e =>
        (Ok false,
         Vertex (GeminiManagerObj name (model (self w))) (rejects w) (service w) (wire w)
           (console w ++ ["Error changing model: " +:+ str_exn e]))
    | None =>
        (Ok true,
         Vertex (GeminiManagerObj name (GenerativeModel name)) (rejects w) (service w)
           (wire w) (console w))
    end.
Proof.
  unfold change_model, try_except, mbind, Py_bind, new_generative_model; simpl.
  by destruct (rejects w name).
Qed.

Lemma send_prompt_run (prompt : str) (w : vertex) :
  let name := resource_name (model (self w)) in
  let sub := Submission name [] [TextPart prompt] in
  let w' := Vertex (self w) (rejects w) (service w) (wire w ++ [sub]) (console w) in
  send_prompt prompt w =
    match service w name [[TextPart prompt]] with
    | Ok text => (Ok text, w')
    | Raise e => (Raise e, w')
    end.
Proof.
  unfold send_prompt, mbind, Py_bind, send_message; simpl.
  by destruct (service w _ _).
Qed.

Lemma send_prompt_with_image_run (prompt : str) (image_data : string) (w : vertex) :
  let name := resource_name (model (self w)) in
  let message := [TextPart prompt; DataPart image_data "image/jpeg"] in
  let sub := Submission name [] message in
  send_prompt_with_image prompt image_data w =
    match service w name [message] with
    | Ok text =>
        (Ok text, Vertex (self w) (rejects w) (service w) (wire w ++ [sub]) (console w))
    | Raise e =>
        (Raise e,
         Vertex (self w) (rejects w) (service w) (wire w ++ [sub])
           (console w ++ ["Error sending prompt with image: " +:+ str_exn e]))
    end.
Proof.
  unfold send_prompt_with_image, try_except, mbind, Py_bind, send_message; simpl.
  by destruct (service w _ _).
Qed.

(** A rejected identifier: [change_model] returns [False] and the bound
    model object is the previous one, but [model_name] already holds the
    rejected identifier. *)
Lemma change_model_rejected (name : string) (e : exn) (w : vertex) :
  rejects w name = Some e →
  ∃ w', change_model name w = (Ok false, w')
        ∧ model (self w') = model (self w)
        ∧ model_name (self w') = name
        ∧ wire w' = wire w.
Proof. intros H. rewrite change_model_run, H. eauto. Qed.

(** An accepted identifier: both attributes are rebound. *)
Lemma change_model_accepted (name : string) (w : vertex) :
  rejects w name = None →
  ∃ w', change_model name w = (Ok true, w')
        ∧ model (self w') = GenerativeModel name
        ∧ model_name (self w') = name.
Proof. intros H. rewrite change_model_run, H. eauto. Qed.

(** After a failed [change_model], [send_prompt] still submits to the
    previously bound model. *)
Lemma send_after_rejected_change (name : string) (prompt : str) (e : exn) (w : vertex) :
  rejects w name = Some e →
  ∃ sub, wire (send_prompt prompt (change_model name w).2).2 = wire w ++ [sub]
         ∧ sub_model sub = resource_name (model (self w)).
Proof.
  intros H. rewrite change_model_run, H. simpl. rewrite send_prompt_run. simpl.
  destruct (service w _ _); eauto.
Qed.

(** C9.  [send_prompt_with_image] makes exactly one submission, to the
    bound model, in an exchange without history, whose message has exactly
    two parts: the prompt text and the image bytes tagged [image/jpeg].  Its
    outcome is the outcome of the service on that message, a failure being
    raised again to the caller; [send_prompt] relates to the service in the
    same way on its one-part message. *)
Theorem send_prompt_with_image_request (prompt : str) (image_data : string) (w : vertex) :
  let name := resource_name (model (self w)) in
  let message := [TextPart prompt; DataPart image_data "image/jpeg"] in
  wire (send_prompt_with_image prompt image_data w).2
    = wire w ++ [Submission name [] message]
  ∧ (send_prompt_with_image prompt image_data w).1 = service w name [message]
  ∧ self (send_prompt_with_image prompt image_data w).2 = self w
  ∧ wire (send_prompt prompt w).2 = wire w ++ [Submission name [] [TextPart prompt]]
  ∧ (send_prompt prompt w).1 = service w name [[TextPart prompt]].
Proof.
  intros name message.
  pose proof (send_prompt_with_image_run prompt image_data w) as Himg.
  pose proof (send_prompt_run prompt w) as Htxt. simpl in Himg, Htxt.
  fold name in Himg, Htxt. fold message in Himg. rewrite Himg, Htxt.
  destruct (service w name [message]), (service w name [[TextPart prompt]]); done.
Qed.

(** ** Concrete runs *)

(** The scenario of the specification. *)
Example scenario_t1 :
  (save_interaction "t1" "user" "hello" ;;
   l1 ← list_interactions "t1";
   save_interaction "t1" "gemini" "hi there" ;;
   l2 ← list_interactions "t1";
   turn ← get_interaction "t1" 2;
   n ← clear_storage "t1";
   l3 ← list_interactions "t1";
   mret (l1, l2, turn, n, l3)) empty_bucket
  = (Ok (["t1/1.json"], ["t1/1.json"; "t1/2.json"],
         Some [(wide "role", wide "gemini"); (wide "content", wide "hi there")], 2, []),
     empty_bucket).
Proof. vm_compute. reflexivity. Qed.

(** A clear that fails part-way.  The deletion of [t1/2.json] is not
    answered: [clear_storage] returns [-1], [t1/1.json] is gone and the
    two other turns are still stored.  The next append then derives the key
    [t1/3.json], which is taken. *)
Example clear_storage_partial_failure :
  let w := (save_interaction "t1" "user" "again" two_turn_bucket).2 in
  let flaky := Gcs (objects w) [None; None; Some (GoogleCloudError "503")] [] in
  (clear_storage "t1" flaky).1 = Ok (-1)
  ∧ blob_names "t1/" (objects (clear_storage "t1" flaky).2) = ["t1/2.json"; "t1/3.json"]
  ∧ stdout (clear_storage "t1" flaky).2 = ["Error clearing storage: 503"]
  ∧ next_key "t1" (objects (clear_storage "t1" flaky).2) = "t1/3.json".
Proof. vm_compute. by split_and!. Qed.

(** C1, counterexample.  After [nested_trace] the bucket holds [C/1.json]
    and [C/3.json]; the next append to ["C"] derives the key [C/3.json]
    again, and the listing is no longer afterwards than before. *)
Lemma append_then_list_same_length :
  ∃ w l0 l1 w',
    nested_trace empty_bucket = (Ok 1, w)
    ∧ (l0 ← list_interactions "C";
       save_interaction "C" "user" "d" ;;
       l1 ← list_interactions "C";
       mret (l0, l1)) w = (Ok (l0, l1), w')
    ∧ length l0 = 2%nat ∧ length l1 = 2%nat
    ∧ length l1 ≠ S (length l0).
Proof.
  do 4 eexists. split; [vm_compute; reflexivity |].
  split; [vm_compute; reflexivity |]. by split_and!.
Qed.

(** C2, counterexample.  The content made of the high surrogate U+D83D
    followed by the low surrogate U+DE00 is stored and read back without a
    failure, and comes back as the single code point U+1F600. *)
Lemma save_then_get_fuses_surrogates :
  ∃ w1 w2 content',
    save_interaction "t1" "user" [0xd83d; 0xde00]%N empty_bucket = (Ok tt, w1)
    ∧ get_interaction "t1"
        (len (blob_names (conversation_prefix "t1") (objects empty_bucket)) + 1) w1
      = (Ok (Some [(wide "role", wide "user"); (wide "content", content')]), w2)
    ∧ content' = [0x1f600]%N
    ∧ content' ≠ [0xd83d; 0xde00]%N.
Proof.
  do 3 eexists. split; [vm_compute; reflexivity |].
  split; [vm_compute; reflexivity |]. by split.
Qed.

(** C7, counterexample.  In the same bucket the append to ["C"] replaces
    the turn stored under [C/3.json]. *)
Lemma append_overwrites_stored_turn :
  ∃ w,
    nested_trace empty_bucket = (Ok 1, w)
    ∧ objects w !! "C/3.json" = Some (turn_payload "user" "c")
    ∧ objects (save_interaction "C" "user" "d" w).2 !! "C/3.json"
      = Some (turn_payload "user" "d")
    ∧ turn_payload "user" "c" ≠ turn_payload "user" "d".
Proof.
  eexists. split; [vm_compute; reflexivity |].
  split; [vm_compute; reflexivity |].
  split; [vm_compute; reflexivity |].
  vm_compute. discriminate.
Qed.

(** C8, at the failing input.  [change_model("no/such-model")] returns
    [False] and keeps the bound model object, yet [model_name] no longer
    names that object: it holds the rejected identifier. *)
Theorem change_model_failure_renames :
  (change_model "no/such-model" picky_vertex).1 = Ok false
  ∧ model (self (change_model "no/such-model" picky_vertex).2)
    = GenerativeModel default_model
  ∧ model_name (self picky_vertex) = default_model
  ∧ model_name (self (change_model "no/such-model" picky_vertex).2) = "no/such-model"
  ∧ wire (send_prompt "hi" (change_model "no/such-model" picky_vertex).2).2
    = [Submission default_model [] [TextPart "hi"]].
Proof. by split_and!. Qed.

(** ** Witnesses *)

Lemma append_then_list_length_witness :
  ∃ l0 l1 w',
    (l0 ← list_interactions "t1";
     save_interaction "t1" "gemini" "hi there" ;;
     l1 ← list_interactions "t1";
     mret (l0, l1)) one_turn_bucket = (Ok (l0, l1), w')
    ∧ (objects one_turn_bucket !! blob_key "t1" (len l0 + 1) = None
       → length l1 = S (length l0))
    ∧ (is_Some (objects one_turn_bucket !! blob_key "t1" (len l0 + 1))
       → length l1 = length l0)
    ∧ objects w' !! blob_key "t1" (len l0 + 1) = Some (turn_payload "gemini" "hi there").
Proof.
  apply (append_then_list_length "t1" "gemini" "hi there" one_turn_bucket).
  reflexivity.
Defined.

Lemma save_then_get_roundtrip_witness :
  ∃ w2,
    get_interaction "t1"
      (len (blob_names (conversation_prefix "t1") (objects one_turn_bucket)) + 1)
      (save_interaction "t1" "gemini" [104; 105; 0x20ac; 0x1f600; 0xde00; 0xd83d]%N
         one_turn_bucket).2
    = (Ok (Some [(wide "role", wide "gemini");
                 (wide "content", [104; 105; 0x20ac; 0x1f600; 0xde00; 0xd83d]%N)]), w2).
Proof.
  apply (save_then_get_roundtrip "t1" "gemini" [104; 105; 0x20ac; 0x1f600; 0xde00; 0xd83d]%N
           one_turn_bucket).
  - apply is_str_wide.
  - repeat constructor; discriminate.
  - apply has_pair_wide.
  - reflexivity.
  - vm_compute. reflexivity.
  - reflexivity.
Defined.

(** The bucket after the first append holds one name under [t1/]. *)
Lemma listed_one_turn (listed : list string) :
  NoDup listed →
  (∀ k, k ∈ listed
        ↔ is_Some (objects one_turn_bucket !! k) ∧ ∃ suffix, k = ("t1" +:+ "/") +:+ suffix) →
  length listed = 1%nat.
Proof.
  intros Hnd Hl.
  assert (listed ≡ₚ blob_names (conversation_prefix "t1") (objects one_turn_bucket)) as ->.
  { apply NoDup_Permutation; [done | apply NoDup_blob_names |].
    intros k. by rewrite Hl, elem_of_blob_names, startswith_spec. }
  vm_compute. reflexivity.
Qed.

Lemma save_interaction_key_payload_witness :
  ∃ w',
    save_interaction "t1" "gemini" [104; 105; 0x20ac]%N one_turn_bucket = (Ok tt, w')
    ∧ objects w' =
        <["t1/2.json" :=
            Blob (String "{" (String dquote ("role" +:+ String dquote (": "
                    +:+ String dquote ("gemini" +:+ String dquote (", "
                    +:+ String dquote ("content" +:+ String dquote (": "
                    +:+ String dquote ("hi" +:+ String backslash ("u20ac"
                    +:+ String dquote "}"))))))))))
              "application/json"]>
          (objects one_turn_bucket).
Proof.
  destruct (save_interaction_key_payload "t1" "gemini" [104; 105; 0x20ac]%N one_turn_bucket)
    as (listed & payload & w' & Hnd & Hlisted & Hrun & Hobjects & Hpayload & _).
  - apply is_str_wide.
  - repeat constructor; discriminate.
  - reflexivity.
  - exists w'. split; [exact Hrun |].
    rewrite Hobjects, Hpayload, (listed_one_turn listed Hnd Hlisted). reflexivity.
Defined.

Lemma clear_storage_success_witness :
  2 = len (blob_names (conversation_prefix "t1") (objects two_turn_bucket))
  ∧ (∀ k, startswith (conversation_prefix "t1") k = true →
          objects (clear_storage "t1" two_turn_bucket).2 !! k = None)
  ∧ (∀ l w'', list_interactions "t1" (clear_storage "t1" two_turn_bucket).2 = (Ok l, w'') →
              l = []).
Proof.
  apply (clear_storage_success "t1" two_turn_bucket _ 2).
  - vm_compute. reflexivity.
  - discriminate.
Defined.

Lemma get_interaction_absent_witness :
  (answers 1 one_turn_bucket = true →
     get_interaction "t1" 2 one_turn_bucket = (Ok None, answered one_turn_bucket))
  ∧ (∀ e w', get_interaction "t1" 2 one_turn_bucket = (Raise e, w') →
             next_outage one_turn_bucket = Some e).
Proof.
  apply (get_interaction_absent "t1" 2 one_turn_bucket).
  vm_compute. reflexivity.
Defined.

Lemma conversation_isolation_witness :
  ∃ l w0 w',
    list_interactions "C" shared_bucket = (Ok l, w0)
    ∧ l = ["C/1.json"; "C/x/1.json"]
    ∧ clear_storage "C" shared_bucket = (Ok 2, w')
    ∧ is_Some (objects shared_bucket !! "C/x/1.json")
    ∧ objects w' !! "C/x/1.json" = None
    ∧ is_Some (objects shared_bucket !! "D/1.json")
    ∧ objects w' !! "D/1.json" = objects shared_bucket !! "D/1.json".
Proof.
  destruct (conversation_isolation "C") as (_ & _ & _ & _ & Hunrelated & Hnested).
  destruct (Hnested "C/x" eq_refl shared_bucket) as (Hclear & _ & _).
  destruct Hclear as (w' & Hrun & Hgone); [vm_compute; reflexivity |].
  destruct (Hunrelated "D") with (w := shared_bucket) (k := "D/1.json")
    as (_ & Hkept & _); [discriminate | reflexivity | reflexivity | reflexivity |].
  rewrite Hrun in Hkept.
  exists ["C/1.json"; "C/x/1.json"], (answered shared_bucket), w'. split_and!.
  - vm_compute. reflexivity.
  - reflexivity.
  - rewrite Hrun. vm_compute. reflexivity.
  - vm_compute. eexists. reflexivity.
  - apply Hgone. reflexivity.
  - vm_compute. eexists. reflexivity.
  - exact Hkept.
Defined.

Lemma stored_turns_immutable_witness :
  (∀ C role content, C ∈ ["t1"; "notes/2024"] →
     objects (save_interaction C role content one_turn_bucket).2 !! "t1/1.json"
     = Some (turn_payload "user" "hello"))
  ∧ (∀ C, objects (clear_storage C one_turn_bucket).2 !! "t1/1.json"
          = Some (turn_payload "user" "hello")
          ∨ (startswith (conversation_prefix C) "t1/1.json" = true
             ∧ objects (clear_storage C one_turn_bucket).2 !! "t1/1.json" = None)).
Proof.
  apply (stored_turns_immutable ["t1"; "notes/2024"]).
  - reflexivity.
  - apply reach_append; [apply reach_empty; reflexivity | left].
  - vm_compute. reflexivity.
Defined.

(** * The store as a log *)

Lemma holds_log_next_key (C : string) (ts : list turn) (m : gmap string blob) :
  holds_log C ts m → next_key C m = blob_key C (Z.of_nat (S (length ts))).
Proof.
  intros [Hnum _]. unfold next_key, len.
  rewrite (numbered_length C _ m Hnum). f_equal. lia.
Qed.

Lemma numbered_absent (C : string) (n : nat) (m : gmap string blob) (i : Z) :
  numbered C n m → (i ≤ 0 ∨ Z.of_nat n < i) → m !! blob_key C i = None.
Proof.
  intros Hnum Hi. destruct (m !! blob_key C i) as [b|] eqn:E; [| done].
  destruct (proj1 (Hnum (blob_key C i))) as (j & Hj & Hkey).
  { split; [eauto | apply blob_key_startswith]. }
  apply blob_key_inj in Hkey. lia.
Qed.

Lemma holds_log_append (C : string) (ts : list turn) (t : turn) (m : gmap string blob) :
  holds_log C ts m →
  holds_log C (ts ++ [t]) (<[next_key C m := turn_payload t.1 t.2]> m).
Proof.
  intros Hlog. pose proof (holds_log_next_key C ts m Hlog) as Hnext.
  destruct Hlog as [Hnum Hturns]. rewrite Hnext. split.
  - rewrite length_app. simpl. replace (length ts + 1)%nat with (S (length ts)) by lia.
    intros k. split.
    + intros [Hk Hpre].
      destruct (decide (blob_key C (Z.of_nat (S (length ts))) = k)) as [<- | Hne].
      * exists (S (length ts)). split; [lia | done].
      * rewrite lookup_insert_ne in Hk by done.
        destruct (proj1 (Hnum k)) as (i & Hi & ->); [done |].
        exists i. split; [lia | done].
    + intros (i & Hi & ->). split; [| apply blob_key_startswith].
      destruct (decide (i = S (length ts))) as [-> | Hne].
      * rewrite lookup_insert_eq. eauto.
      * rewrite lookup_insert_ne by (intros ?%blob_key_inj; lia).
        apply (Hnum (blob_key C (Z.of_nat i))). exists i. split; [lia | done].
  - intros i u Hi. destruct (decide (i = length ts)) as [-> | Hne].
    + rewrite lookup_app_r, Nat.sub_diag in Hi by lia. injection Hi as <-.
      apply lookup_insert_eq.
    + assert (i < length ts)%nat as Hlt.
      { apply lookup_lt_Some in Hi. rewrite length_app in Hi. simpl in Hi. lia. }
      rewrite lookup_app_l in Hi by done.
      rewrite lookup_insert_ne by (intros ?%blob_key_inj; lia). by apply Hturns.
Qed.

(** A blob stored or removed outside the prefix of [D] does not touch the
    log of [D]. *)
Lemma holds_log_frame (D : string) (ts : list turn) (m m' : gmap string blob) :
  (∀ k, startswith (conversation_prefix D) k = true → m' !! k = m !! k) →
  holds_log D ts m → holds_log D ts m'.
Proof.
  intros Hsame [Hnum Hturns]. split.
  - intros k. rewrite <- (Hnum k).
    destruct (startswith (conversation_prefix D) k) eqn:Hk.
    + by rewrite (Hsame k Hk).
    + split; intros [_ ?]; done.
  - intros i t Hi. rewrite Hsame by apply blob_key_startswith. by apply Hturns.
Qed.

Lemma holds_log_empty (C : string) (m : gmap string blob) :
  (∀ k, startswith (conversation_prefix C) k = true → m !! k = None) →
  holds_log C [] m.
Proof.
  intros Hgone. split.
  - intros k. split.
    + intros [[b Hb] Hk]. by rewrite (Hgone k Hk) in Hb.
    + intros (i & Hi & _). simpl in Hi. lia.
  - intros i t Hi. done.
Qed.

Section log_refinement.

Context (ids : list string) (Hind : independent ids = true).

(** X1.  Append refines "add the turn at the end of the log": when the
    bucket holds the logs of a writer's independent conversations and the
    two requests of the append are answered, the append returns normally
    and the bucket holds the same logs, with the new turn at the end of the
    log of [C]. *)
Theorem append_extends_log (C role content : string) (logs : string → list turn)
    (w : gcs) :
  C ∈ ids →
  holds_logs ids logs (objects w) →
  answers 2 w = true →
  ∃ w', save_interaction C role content w = (Ok tt, w')
        ∧ holds_logs ids (log_append C (role, content) logs) (objects w').
Proof.
  intros HC Hlogs [H1 [H2 _]%answers_S]%answers_S.
  rewrite save_interaction_run, H1, H2. eexists. split; [done |].
  intros D HD. unfold log_append. simpl. destruct (decide (D = C)) as [-> | Hne].
  - apply (holds_log_append C (logs C) (role, content)). by apply Hlogs.
  - apply (holds_log_frame D _ (objects w)); [| by apply Hlogs].
    intros k Hk. apply lookup_insert_ne. intros <-.
    rewrite (independent_disjoint ids Hind D C) in Hk; [done.. | apply blob_key_startswith].
Qed.

(** X3.  Clear refines "empty the log": a clear that succeeds returns the
    number of turns in the log of [C], leaves that log empty and every
    other log of the writer as it was. *)
Theorem clear_empties_log (C : string) (logs : string → list turn)
    (w w' : gcs) (n : Z) :
  C ∈ ids →
  holds_logs ids logs (objects w) →
  clear_storage C w = (Ok n, w') →
  0 ≤ n →
  n = len (logs C) ∧ holds_logs ids (log_clear C logs) (objects w').
Proof.
  intros HC Hlogs Hrun Hn.
  destruct (clear_storage_nonneg C w w' n Hrun Hn) as [-> Hgone]. split.
  - unfold len. f_equal. apply numbered_length. by destruct (Hlogs C HC).
  - intros D HD. unfold log_clear. destruct (decide (D = C)) as [-> | Hne].
    + by apply holds_log_empty.
    + apply (holds_log_frame D _ (objects w)); [| by apply Hlogs].
      intros k Hk. pose proof (clear_storage_frame C k w) as Hfr.
      rewrite Hrun in Hfr. apply Hfr. by apply (independent_disjoint ids Hind C D).
Qed.

End log_refinement.

(** X2.  Get reads the log: when the bucket holds the log [ts] of [C] and
    the requests are answered, [get_interaction] at number [i + 1] returns
    the dictionary of the turn at position [i], and at a number outside
    1..[length ts] (zero and negative numbers included) it returns
    [None]. *)
Theorem get_reads_log (C : string) (ts : list turn) (w : gcs) :
  holds_log C ts (objects w) →
  answers 2 w = true →
  (∀ (i : nat) (t : turn), ts !! i = Some t →
     get_interaction C (Z.of_nat (S i)) w = (Ok (Some (turn_dict t)), answered (answered w)))
  ∧ (∀ n : Z, n ≤ 0 ∨ len ts < n → get_interaction C n w = (Ok None, answered w)).
Proof.
  intros [Hnum Hturns] [H1 [H2 _]%answers_S]%answers_S. split.
  - intros i t Hi. rewrite get_interaction_run, H1, (Hturns i t Hi), H2. simpl.
    by rewrite json_loads_dumps_turn_wide.
  - intros n Hn. rewrite get_interaction_run, H1.
    by rewrite (numbered_absent C (length ts) (objects w) n Hnum Hn).
Qed.

(** * The console programs *)

#[local] Arguments String.append !_ _ / : simpl nomatch.

Lemma after_requests_objects (n : nat) (w : gcs) : objects (after_requests n w) = objects w.
Proof. revert w. induction n as [|n IH]; intros w; simpl; [done |]. by rewrite IH. Qed.

Lemma after_requests_add (a b : nat) (w : gcs) :
  after_requests (a + b) w = after_requests b (after_requests a w).
Proof. revert w. induction a as [|a IH]; intros w; simpl; [done |]. apply IH. Qed.

Lemma after_requests_set_objects (n : nat) (f : gmap string blob → gmap string blob) (w : gcs) :
  after_requests n (set_objects f w) = set_objects f (after_requests n w).
Proof.
  revert w. induction n as [|n IH]; intros w; simpl; [done |].
  by rewrite answered_set_objects, IH.
Qed.

Lemma after_requests_healthy (n : nat) (w : gcs) : healthy w → after_requests n w = w.
Proof.
  intros H. induction n as [|n IH]; simpl; [done |]. by rewrite answered_healthy.
Qed.

Lemma answers_add (a b : nat) (w : gcs) :
  answers (a + b) w = answers a w && answers b (after_requests a w).
Proof.
  revert w. induction a as [|a IH]; intros w; simpl; [done |].
  destruct (next_outage w); [done | apply IH].
Qed.

Lemma py_range_from_1 (n : nat) :
  py_range 1 (Z.of_nat n + 1) = (λ i : nat, Z.of_nat (S i)) <$> seq 0 n.
Proof.
  unfold py_range. replace (Z.to_nat (Z.of_nat n + 1 - 1)) with n by lia.
  apply list_fmap_ext. intros i x _. lia.
Qed.

Lemma render_app (ts us : list turn) : render (ts ++ us) = render ts ++ render us.
Proof.
  induction ts as [|t ts IH]; [done |]. cbn [app render]. by rewrite IH, app_assoc.
Qed.

Lemma string_app_empty_r (s : string) : s +:+ "" = s.
Proof. induction s as [|c s IH]; simpl; [done | by rewrite IH]. Qed.

(** What [get_interaction] returns for a turn of the log. *)
Lemma get_interaction_logged (C : string) (ts : list turn) (i : nat) (t : turn) (w : gcs) :
  holds_log C ts (objects w) → ts !! i = Some t → answers 2 w = true →
  get_interaction C (Z.of_nat (S i)) w = (Ok (Some (turn_dict t)), answered (answered w)).
Proof.
  intros [_ Hturns] Hi [H1 [H2 _]%answers_S]%answers_S.
  rewrite get_interaction_run, H1, (Hturns i t Hi), H2. simpl.
  by rewrite json_loads_dumps_turn_wide.
Qed.

Import Workspace.

Lemma prog_bind_ret {S A B} (a : A) (f : A → Prog S B) (s : S) :
  (mret a ≫= f) s = f a s.
Proof. done. Qed.

Lemma subscript_role {S} (t : turn) :
  subscript (S:=S) (turn_dict t) "role" = mret (wide t.1).
Proof. done. Qed.

Lemma subscript_content {S} (t : turn) :
  subscript (S:=S) (turn_dict t) "content" = mret (wide t.2).
Proof. done. Qed.

(** The [for] loop over the numbers of the turns [rest] that follow the
    turns [pre] in the log. *)
Lemma replay_log (rest pre : list turn) (acc : str) (t : terminal) :
  holds_log conversation_id (pre ++ rest) (objects (cloud t)) →
  answers (2 * length rest) (cloud t) = true →
  replay ((λ i : nat, Z.of_nat (S i)) <$> seq (length pre) (length rest)) acc t
  = (Return (acc ++ render rest),
     Terminal (after_requests (2 * length rest) (cloud t)) (ai t) (stdin t) (screen t)).
Proof.
  revert pre acc t. induction rest as [|u rest IH]; intros pre acc t Hlog Hans.
  - simpl. rewrite app_nil_r. by destruct t.
  - assert (2 * length (u :: rest) = 2 + 2 * length rest)%nat as Hlen by (simpl; lia).
    rewrite Hlen in *. clear Hlen.
    rewrite answers_add in Hans. apply andb_true_iff in Hans as [Hans2 Hans].
    rewrite after_requests_add.
    cbn [length seq]. rewrite fmap_cons. cbn [replay].
    unfold mbind at 1, Prog_bind at 1, on_cloud.
    rewrite (get_interaction_logged conversation_id (pre ++ u :: rest) (length pre) u);
      [| done | by rewrite lookup_app_r, Nat.sub_diag by lia | done].
    change (truthy (Some (turn_dict u))) with true. cbv iota.
    change (default [] (Some (turn_dict u))) with (turn_dict u).
    rewrite subscript_role, prog_bind_ret, subscript_content, prog_bind_ret.
    specialize (IH (pre ++ [u]) (acc ++ history_line u.1 u.2)
                  (Terminal (answered (answered (cloud t))) (ai t) (stdin t) (screen t))).
    rewrite length_app, Nat.add_1_r, <- app_assoc in IH.
    rewrite IH by done. cbn [render]. by rewrite app_assoc.
Qed.

Lemma load_history_run (ts : list turn) (t : terminal) :
  holds_log conversation_id ts (objects (cloud t)) →
  answers (1 + 2 * length ts) (cloud t) = true →
  load_history t
  = (Return (render ts),
     Terminal (after_requests (1 + 2 * length ts) (cloud t)) (ai t) (stdin t) (screen t)).
Proof.
  intros Hlog Hans. rewrite answers_add in Hans.
  apply andb_true_iff in Hans as [[H1 _]%answers_S Hans].
  unfold load_history, mbind, Prog_bind, on_cloud.
  rewrite list_interactions_run, H1. unfold len.
  rewrite (numbered_length _ _ _ (proj1 Hlog)), py_range_from_1.
  pose proof (replay_log ts [] []
                (Terminal (answered (cloud t)) (ai t) (stdin t) (screen t))) as Hr.
  cbn [length app cloud ai stdin screen] in Hr. rewrite Hr by done.
  by rewrite after_requests_add.
Qed.

(** X4.  The history that [gemini-x/main.py] loads is the log: when the
    bucket holds the log [ts] of [conversation_1] and the listing and the
    two requests per turn are answered, the history text is one line
    [role: content] per stored turn, oldest first. *)
Theorem load_history_replays_log (ts : list turn) (t : terminal) :
  holds_log conversation_id ts (objects (cloud t)) →
  answers (1 + 2 * length ts) (cloud t) = true →
  ∃ t', load_history t = (Return (render ts), t')
        ∧ objects (cloud t') = objects (cloud t)
        ∧ wire (ai t') = wire (ai t) ∧ stdin t' = stdin t.
Proof.
  intros Hlog Hans. rewrite (load_history_run ts t Hlog Hans).
  eexists. split; [done |]. simpl. by rewrite after_requests_objects.
Qed.

(** A turn of the loop, up to the line it has read. *)
Lemma chat_round_after_input (ts : list turn) (t : terminal) (u : string)
    (rest : list string) :
  holds_log conversation_id ts (objects (cloud t)) →
  stdin t = u :: rest →
  answers (1 + 2 * length ts) (cloud t) = true →
  chat_round t
  = (if String.eqb (lower u) "exit" then mret false
     else
       gemini_response ← on_ai (send_prompt (full_prompt (render ts) u));
       on_cloud (save_interaction conversation_id "user" u) ;;
       on_cloud (save_interaction conversation_id "gemini" (wide gemini_response)) ;;
       print_line ("Gemini: " +:+ gemini_response) ;;
       mret true)
      (Terminal (after_requests (1 + 2 * length ts) (cloud t)) (ai t) rest
         (screen t ++ ["You: "])).
Proof.
  intros Hlog Hin Hans. unfold chat_round.
  unfold mbind at 1, Prog_bind at 1. rewrite (load_history_run ts t Hlog Hans).
  unfold mbind at 1, Prog_bind at 1, input. cbn [stdin cloud ai screen]. by rewrite Hin.
Qed.

Lemma on_ai_send_prompt (prompt : str) (t : terminal) :
  on_ai (send_prompt prompt) t =
    let name := resource_name (model (self (ai t))) in
    let v := Vertex (self (ai t)) (rejects (ai t)) (service (ai t))
               (wire (ai t) ++ [Submission name [] [TextPart prompt]]) (console (ai t)) in
    match service (ai t) name [[TextPart prompt]] with
    | Ok text => (Return text, Terminal (cloud t) v (stdin t) (screen t))
    | Raise e => (Throw (Library e), Terminal (cloud t) v (stdin t) (screen t))
    end.
Proof.
  unfold on_ai. rewrite send_prompt_run. simpl.
  by destruct (service (ai t) _ _).
Qed.

Lemma on_cloud_save_logged (ts : list turn) (role content : string) (t : terminal) :
  holds_log conversation_id ts (objects (cloud t)) →
  answers 2 (cloud t) = true →
  ∃ c, on_cloud (save_interaction conversation_id role content) t
       = (Return tt, Terminal c (ai t) (stdin t) (screen t))
       ∧ holds_log conversation_id (ts ++ [(role, content)]) (objects c)
       ∧ outages c = outages (after_requests 2 (cloud t)).
Proof.
  intros Hlog [H1 [H2 _]%answers_S]%answers_S.
  unfold on_cloud. rewrite save_interaction_run, H1, H2.
  eexists. split; [done |]. split; [| done].
  apply (holds_log_append conversation_id ts (role, content) _ Hlog).
Qed.

Lemma answers_outages (n : nat) (w1 w2 : gcs) :
  outages w1 = outages w2 → answers n w1 = answers n w2.
Proof.
  revert w1 w2. induction n as [|n IH]; intros w1 w2 H; simpl; [done |].
  unfold next_outage. rewrite H.
  assert (outages (answered w1) = outages (answered w2)) as H' by (simpl; by rewrite H).
  destruct (outages w2) as [|[e|] ?]; try done; by apply IH.
Qed.

Lemma after_requests_outages (n : nat) (w1 w2 : gcs) :
  outages w1 = outages w2 → outages (after_requests n w1) = outages (after_requests n w2).
Proof.
  revert w1 w2. induction n as [|n IH]; intros w1 w2 H; simpl; [done |].
  apply IH. simpl. by rewrite H.
Qed.

(** A complete turn of the loop. *)
Lemma chat_round_run (ts : list turn) (t : terminal) (u r : string) (rest : list string) :
  holds_log conversation_id ts (objects (cloud t)) →
  stdin t = u :: rest →
  String.eqb (lower u) "exit" = false →
  service (ai t) (resource_name (model (self (ai t)))) [[TextPart (full_prompt (render ts) u)]]
    = Ok r →
  answers (1 + 2 * length ts + 4) (cloud t) = true →
  ∃ c, chat_round t
       = (Return true,
          Terminal c
            (Vertex (self (ai t)) (rejects (ai t)) (service (ai t))
               (wire (ai t) ++ [Submission (resource_name (model (self (ai t)))) []
                                  [TextPart (full_prompt (render ts) u)]])
               (console (ai t)))
            rest (screen t ++ ["You: "; "Gemini: " +:+ r]))
       ∧ holds_log conversation_id (ts ++ [("user", u); ("gemini", r)]) (objects c)
       ∧ outages c = outages (after_requests (1 + 2 * length ts + 4) (cloud t)).
Proof.
  intros Hlog Hin Hexit Hreply Hans.
  rewrite answers_add in Hans. apply andb_true_iff in Hans as [Hans1 Hans].
  change 4%nat with (2 + 2)%nat in Hans. rewrite answers_add in Hans.
  apply andb_true_iff in Hans as [Hans2 Hans3].
  rewrite (chat_round_after_input ts t u rest Hlog Hin Hans1), Hexit.
  unfold mbind at 1, Prog_bind at 1. rewrite on_ai_send_prompt.
  cbn [ai cloud stdin screen self service rejects wire console]. rewrite Hreply.
  set (v := Vertex _ _ _ _ _).
  set (t1 := Terminal _ v rest _).
  destruct (on_cloud_save_logged ts "user" u t1) as (c1 & Hrun1 & Hlog1 & Hout1).
  { unfold t1. cbn [cloud]. by rewrite after_requests_objects. }
  { unfold t1. by cbn [cloud]. }
  unfold mbind at 1, Prog_bind at 1. rewrite Hrun1.
  set (t2 := Terminal c1 _ _ _).
  destruct (on_cloud_save_logged (ts ++ [("user", u)]) "gemini" r t2)
    as (c2 & Hrun2 & Hlog2 & Hout2).
  { unfold t2. by cbn [cloud]. }
  { unfold t2, t1 in *. cbn [cloud] in *. by rewrite (answers_outages 2 c1 _ Hout1). }
  unfold mbind at 1, Prog_bind at 1. rewrite Hrun2.
  exists c2. split.
  - unfold mbind, Prog_bind, print_line, mret, Prog_ret. simpl.
    by rewrite <- app_assoc.
  - split; [by rewrite <- app_assoc in Hlog2 |].
    rewrite Hout2. unfold t2, t1 in *. cbn [cloud] in *.
    rewrite (after_requests_outages 2 c1 _ Hout1).
    by rewrite !after_requests_add.
Qed.


(** X6.  When the model call of an exchange fails, the turn of the loop
    raises that failure after the line was read, and nothing is stored:
    the line of the user is lost to the log. *)
Theorem chat_round_model_failure (ts : list turn) (t : terminal) (u : string)
    (rest : list string) (e : exn) :
  holds_log conversation_id ts (objects (cloud t)) →
  stdin t = u :: rest →
  lower u ≠ "exit" →
  service (ai t) (resource_name (model (self (ai t)))) [[TextPart (full_prompt (render ts) u)]]
    = Raise e →
  answers (1 + 2 * length ts) (cloud t) = true →
  ∃ t', chat_round t = (Throw (Library e), t')
        ∧ objects (cloud t') = objects (cloud t)
        ∧ stdin t' = rest.
Proof.
  intros Hlog Hin Hexit%String.eqb_neq Hreply Hans.
  rewrite (chat_round_after_input ts t u rest Hlog Hin Hans), Hexit.
  unfold mbind at 1, Prog_bind at 1. rewrite on_ai_send_prompt.
  cbn [ai cloud stdin screen self service rejects wire console]. rewrite Hreply.
  eexists. split; [done |]. cbn [cloud stdin]. by rewrite after_requests_objects.
Qed.

(** X7.  The two appends of an exchange are not atomic: when the requests
    of the first are answered and the second append fails, the turn of the
    loop raises and the log ends with the line of the user, without an
    answer. *)
Theorem chat_round_second_save_failure (ts : list turn) (t : terminal) (u r : string)
    (rest : list string) :
  holds_log conversation_id ts (objects (cloud t)) →
  stdin t = u :: rest →
  lower u ≠ "exit" →
  service (ai t) (resource_name (model (self (ai t)))) [[TextPart (full_prompt (render ts) u)]]
    = Ok r →
  answers (1 + 2 * length ts + 2) (cloud t) = true →
  answers (1 + 2 * length ts + 4) (cloud t) = false →
  ∃ e t', chat_round t = (Throw (Library e), t')
          ∧ holds_log conversation_id (ts ++ [("user", u)]) (objects (cloud t')).
Proof.
  intros Hlog Hin Hexit%String.eqb_neq Hreply Hans Hfail.
  rewrite answers_add in Hans. apply andb_true_iff in Hans as [Hans1 Hans2].
  change 4%nat with (2 + 2)%nat in Hfail.
  rewrite Nat.add_assoc, answers_add, answers_add, Hans1, Hans2 in Hfail.
  rewrite !andb_true_l in Hfail.
  rewrite (chat_round_after_input ts t u rest Hlog Hin Hans1), Hexit.
  unfold mbind at 1, Prog_bind at 1. rewrite on_ai_send_prompt.
  cbn [ai cloud stdin screen self service rejects wire console]. rewrite Hreply.
  set (v := Vertex _ _ _ _ _).
  set (t1 := Terminal _ v rest _).
  destruct (on_cloud_save_logged ts "user" u t1) as (c1 & Hrun1 & Hlog1 & Hout1).
  { unfold t1. cbn [cloud]. by rewrite after_requests_objects. }
  { unfold t1. by cbn [cloud]. }
  unfold mbind at 1, Prog_bind at 1. rewrite Hrun1.
  unfold t1 in *. cbn [cloud ai stdin screen] in *.
  rewrite <- after_requests_add in Hout1.
  rewrite <- (answers_outages 2 c1 _ Hout1) in Hfail.
  unfold mbind at 1, Prog_bind at 1, on_cloud. cbn [cloud].
  pose proof (save_interaction_failure conversation_id "gemini" r c1) as Hkeep.
  rewrite save_interaction_run in Hkeep |- *.
  destruct (next_outage c1) as [e|] eqn:H1.
  - exists e. eexists. split; [done |]. cbn [cloud]. by rewrite (Hkeep _ e eq_refl).
  - destruct (next_outage (answered c1)) as [e|] eqn:H2.
    + exists e. eexists. split; [done |]. cbn [cloud]. by rewrite (Hkeep _ e eq_refl).
    + simpl in Hfail. by rewrite H1, H2 in Hfail.
Qed.

Lemma gemini_manager_init_run (v : vertex) :
  gemini_manager_init v =
    match rejects v default_model with
    | Some e =>
        (Raise e,
         Vertex (GeminiManagerObj default_model (model (self v))) (rejects v) (service v)
           (wire v) (console v))
    | None =>
        (Ok tt,
         Vertex (GeminiManagerObj default_model (GenerativeModel default_model)) (rejects v)
           (service v) (wire v) (console v))
    end.
Proof.
  unfold gemini_manager_init, mbind, Py_bind, new_generative_model; simpl.
  by destruct (rejects v default_model).
Qed.

(** The turn of the loop that reads an exit line. *)
Lemma chat_round_exit (ts : list turn) (t : terminal) (stop : string) (rest : list string) :
  holds_log conversation_id ts (objects (cloud t)) →
  stdin t = stop :: rest →
  lower stop = "exit" →
  answers (1 + 2 * length ts) (cloud t) = true →
  chat_round t
  = (Return false,
     Terminal (after_requests (1 + 2 * length ts) (cloud t)) (ai t) rest
       (screen t ++ ["You: "])).
Proof.
  intros Hlog Hin Hstop Hans.
  by rewrite (chat_round_after_input ts t stop rest Hlog Hin Hans), Hstop.
Qed.

(** The turn of the loop that finds the input exhausted. *)
Lemma chat_round_eof (ts : list turn) (t : terminal) :
  holds_log conversation_id ts (objects (cloud t)) →
  stdin t = [] →
  answers (1 + 2 * length ts) (cloud t) = true →
  chat_round t
  = (Throw EOFError,
     Terminal (after_requests (1 + 2 * length ts) (cloud t)) (ai t) []
       (screen t ++ ["You: "])).
Proof.
  intros Hlog Hin Hans. unfold chat_round.
  unfold mbind at 1, Prog_bind at 1. rewrite (load_history_run ts t Hlog Hans).
  unfold mbind at 1, Prog_bind at 1, input. cbn [stdin cloud ai screen]. by rewrite Hin.
Qed.

Section session.

Context (reply : str → string).

(** The turns of the loop that exchange the lines [us]. *)
Lemma chat_rounds (us : list string) :
  ∀ (ts : list turn) (t : terminal) (tail : list string) (fuel : nat),
    holds_log conversation_id ts (objects (cloud t)) →
    healthy (cloud t) →
    answers_by reply t →
    Forall (λ u, lower u ≠ "exit") us →
    stdin t = us ++ tail →
    ∃ t', while_true (length us + fuel) chat_round t = while_true fuel chat_round t'
          ∧ holds_log conversation_id (converse reply ts us) (objects (cloud t'))
          ∧ healthy (cloud t')
          ∧ answers_by reply t'
          ∧ stdin t' = tail
          ∧ length (wire (ai t')) = (length (wire (ai t)) + length us)%nat.
Proof.
  induction us as [|u us IH]; intros ts t tail fuel Hlog Hh Hrep Hus Hin.
  - exists t. simpl. split_and!; done || lia.
  - apply Forall_cons in Hus as [Hu Hus].
    destruct (chat_round_run ts t u (reply (full_prompt (render ts) u)) (us ++ tail))
      as (c & Hrun & Hlog' & Hout); try done.
    { by apply String.eqb_neq. }
    { by apply healthy_answers. }
    set (t1 := Terminal c _ _ _) in Hrun.
    destruct (IH (ts ++ [("user", u); ("gemini", reply (full_prompt (render ts) u))])
                t1 tail fuel) as (t' & Hloop & Hlog'' & Hh' & Hrep' & Hin' & Hwire);
      try done.
    { unfold healthy. unfold t1. cbn [cloud]. rewrite Hout.
      by rewrite after_requests_healthy. }
    exists t'. split_and!; try done.
    + cbn [length Nat.add while_true]. by rewrite Hrun.
    + rewrite Hwire. unfold t1. cbn [ai wire]. rewrite length_app. simpl. lia.
Qed.

(** The terminal after [GeminiManager()] in [main]. *)
Lemma main_after_init (t : terminal) :
  rejects (ai t) default_model = None →
  main t
  = while_true (S (length (stdin t))) chat_round
      (Terminal (cloud t)
         (Vertex (GeminiManagerObj default_model (GenerativeModel default_model))
            (rejects (ai t)) (service (ai t)) (wire (ai t)) (console (ai t)))
         (stdin t) (screen t)).
Proof.
  intros Hacc. unfold main, on_ai. by rewrite gemini_manager_init_run, Hacc.
Qed.



End session.

(** ** [main.py] *)


(** X11.  A change of model that the constructor accepts takes effect:
    [change_model] returns [True], records the identifier, and the next
    prompt is submitted to the new model. *)
Theorem change_model_then_send (name : string) (prompt : str) (w : vertex) :
  rejects w name = None →
  (change_model name w).1 = Ok true
  ∧ model_name (self (change_model name w).2) = name
  ∧ wire (send_prompt prompt (change_model name w).2).2
    = wire w ++ [Submission name [] [TextPart prompt]].
Proof.
  intros Hacc. rewrite change_model_run, Hacc. split; [done |]. split; [done |].
  pose proof (send_prompt_run prompt
    (Vertex (GeminiManagerObj name (GenerativeModel name)) (rejects w) (service w)
       (wire w) (console w))) as Hsend.
  simpl in Hsend. cbn [snd]. rewrite Hsend. by destruct (service w name _).
Qed.

(** * The window *)

Import GeminiXApp.

(** ** [strip] *)

(** Every character of the text is white space. *)
Lemma lstrip_blank (s : string) :
  lstrip s = "" ↔ Forall (λ c, isspace c = true) (list_ascii_of_string s).
Proof.
  induction s as [|c s IH]; simpl.
  - split; [constructor | done].
  - destruct (isspace c) eqn:Hc.
    + rewrite IH. split; [by constructor | by inversion 1].
    + split; [done |]. inversion 1; congruence.
Qed.

Lemma rstrip_cons_nonspace (c : ascii) (s : string) :
  isspace c = false → rstrip (String c s) ≠ "".
Proof. intros Hc. simpl. destruct (rstrip s); by rewrite ?Hc. Qed.

Lemma lstrip_head (s : string) :
  lstrip s = "" ∨ ∃ c s', lstrip s = String c s' ∧ isspace c = false.
Proof.
  induction s as [|c s IH]; simpl; [by left |].
  destruct (isspace c) eqn:Hc; [done |]. right. by exists c, s.
Qed.

Lemma strip_blank (s : string) :
  nonempty (strip s) = false ↔ Forall (λ c, isspace c = true) (list_ascii_of_string s).
Proof.
  rewrite <- lstrip_blank. unfold strip.
  destruct (lstrip_head s) as [-> | (c & s' & -> & Hc)]; [done |].
  pose proof (rstrip_cons_nonspace c s' Hc).
  destruct (rstrip (String c s')); done.
Qed.

Lemma list_ascii_of_string_app (a b : string) :
  list_ascii_of_string (a +:+ b) = list_ascii_of_string a ++ list_ascii_of_string b.
Proof. induction a as [|x a IH]; simpl; [done | by rewrite IH]. Qed.

Lemma get_all_blank (t : text_widget) :
  nonempty (strip (get_all t)) = false
  ↔ Forall (λ c, isspace c = true) (list_ascii_of_string (widget_text t)).
Proof.
  rewrite strip_blank. unfold get_all. rewrite list_ascii_of_string_app, Forall_app.
  split; [by intros [? _] |]. intros H. split; [done |]. by repeat constructor.
Qed.

(** ** The exchange *)

(** An append from the window to the log of its conversation. *)
Lemma on_store_save_logged (ts : list turn) (role content : string) (w : window) :
  holds_log conversation_id ts (objects (store w)) →
  answers 2 (store w) = true →
  ∃ c, on_store (save_interaction conversation_id role content) w
       = (Ok tt, Window c (gemini w) (selected_model w) (status_var w) (output_area w)
                   (input_area w) (transcript_area w) (audio_text w) (dialogs w) (logfile w))
       ∧ holds_log conversation_id (ts ++ [(role, content)]) (objects c)
       ∧ outages c = outages (after_requests 2 (store w)).
Proof.
  intros Hlog [H1 [H2 _]%answers_S]%answers_S.
  unfold on_store. rewrite save_interaction_run, H1, H2.
  eexists. split; [done |]. split; [| done].
  apply (holds_log_append conversation_id ts (role, content) _ Hlog).
Qed.

Lemma add_to_conversation_run (role text : string) (w : window) :
  add_to_conversation role text w
  = (Ok tt,
     Window (store w) (gemini w) (selected_model w) (status_var w)
       (TextWidget (widget_text (output_area w) +:+ shown role text) false)
       (input_area w) (transcript_area w) (audio_text w) (dialogs w) (logfile w)).
Proof.
  unfold add_to_conversation, shown, mbind, Py_bind, on_output, modify, insert_end,
    config_state.
  cbn [output_area store gemini selected_model status_var input_area transcript_area
       audio_text dialogs logfile widget_text widget_normal].
  by rewrite !string_app_assoc.
Qed.

(** The message that an exchange submits. *)
Lemma send_step (prompt : string) (image_data : option string) (w : window) :
  let message := if given image_data
                 then [TextPart prompt; DataPart (default "" image_data) "image/jpeg"]
                 else [TextPart prompt] in
  let name := resource_name (model (self (gemini w))) in
  ∃ lines,
    (if given image_data
     then on_gemini (send_prompt_with_image prompt (default "" image_data))
     else on_gemini (send_prompt prompt)) w
    = match service (gemini w) name [message] with
      | Ok text =>
          (Ok text,
           Window (store w)
             (Vertex (self (gemini w)) (rejects (gemini w)) (service (gemini w))
                (wire (gemini w) ++ [Submission name [] message]) (console (gemini w)))
             (selected_model w) (status_var w) (output_area w) (input_area w)
             (transcript_area w) (audio_text w) (dialogs w) (logfile w))
      | Raise e =>
          (Raise e,
           Window (store w)
             (Vertex (self (gemini w)) (rejects (gemini w)) (service (gemini w))
                (wire (gemini w) ++ [Submission name [] message])
                (console (gemini w) ++ lines))
             (selected_model w) (status_var w) (output_area w) (input_area w)
             (transcript_area w) (audio_text w) (dialogs w) (logfile w))
      end.
Proof.
  intros message name. unfold message. destruct (given image_data).
  - unfold on_gemini. rewrite send_prompt_with_image_run. cbv zeta. fold name.
    destruct (service (gemini w) name _) as [text | e].
    + by exists [].
    + by eexists.
  - unfold on_gemini. rewrite send_prompt_run. cbv zeta. fold name.
    exists []. rewrite app_nil_r. by destruct (service (gemini w) name _).
Qed.

Lemma exchange_answered (u : string) (image_data audio : option string) (ts : list turn)
    (r : string) (w : window) :
  let prompt := if given audio then default "" audio else u in
  let message := if given image_data
                 then [TextPart prompt; DataPart (default "" image_data) "image/jpeg"]
                 else [TextPart prompt] in
  let name := resource_name (model (self (gemini w))) in
  holds_log conversation_id ts (objects (store w)) →
  service (gemini w) name [message] = Ok r →
  answers 4 (store w) = true →
  ∃ c, exchange u image_data audio w
       = (Ok tt,
          Window c
            (Vertex (self (gemini w)) (rejects (gemini w)) (service (gemini w))
               (wire (gemini w) ++ [Submission name [] message]) (console (gemini w)))
            (selected_model w) "Response received and displayed."
            (TextWidget (widget_text (output_area w) +:+ shown "Gemini" r) false)
            (input_area w) (transcript_area w) (audio_text w) (dialogs w) (logfile w))
       ∧ holds_log conversation_id (ts ++ [("user", prompt); ("gemini", r)]) (objects c).
Proof.
  intros prompt message name Hlog Hreply Hans.
  change 4%nat with (2 + 2)%nat in Hans. rewrite answers_add in Hans.
  apply andb_true_iff in Hans as [Hans1 Hans2].
  unfold exchange. fold prompt.
  unfold mbind at 1, Py_bind at 1. cbn [update_status modify].
  unfold try_except.
  set (w0 := Window _ _ _ "Sending prompt to Gemini..." _ _ _ _ _ _).
  destruct (send_step prompt image_data w0) as [lines Hsend].
  unfold mbind at 1, Py_bind at 1. rewrite Hsend.
  unfold w0. cbn [store gemini selected_model status_var output_area input_area
                  transcript_area audio_text dialogs logfile].
  fold message name. rewrite Hreply.
  unfold mbind at 1, Py_bind at 1. rewrite add_to_conversation_run.
  cbn [store gemini selected_model status_var output_area input_area
       transcript_area audio_text dialogs logfile].
  set (w1 := Window _ _ _ _ _ _ _ _ _ _).
  destruct (on_store_save_logged ts "user" prompt w1) as (c1 & Hrun1 & Hlog1 & Hout1);
    [done.. |].
  unfold mbind at 1, Py_bind at 1. rewrite Hrun1.
  unfold w1. cbn [store gemini selected_model status_var output_area input_area
                  transcript_area audio_text dialogs logfile].
  set (w2 := Window c1 _ _ _ _ _ _ _ _ _).
  destruct (on_store_save_logged (ts ++ [("user", prompt)]) "gemini" r w2)
    as (c2 & Hrun2 & Hlog2 & _).
  { done. }
  { unfold w2, w1 in *. cbn [store] in *. by rewrite (answers_outages 2 c1 _ Hout1). }
  unfold mbind at 1, Py_bind at 1. rewrite Hrun2.
  exists c2. split; [done |]. by rewrite <- app_assoc in Hlog2.
Qed.

Lemma exchange_failed_run (e : exn) (w : window) :
  ∃ line,
    exchange_failed e w
    = (Ok tt,
       Window (store w) (gemini w) (selected_model w) ("Error: " +:+ str_exn e)
         (output_area w) (input_area w) (transcript_area w) (audio_text w)
         (dialogs w ++ [failure_dialog e]) (logfile w ++ [line])).
Proof. destruct e; by eexists. Qed.

(** X12.  The guard of the Send button: when the prompt area holds nothing
    but white space, and neither an image nor a transcript is given, the
    handler only asks for a prompt in the status bar; nothing is submitted
    or stored, and the conversation and the prompt area stay as they
    are. *)
Theorem send_blank_prompt_ignored (image_data audio : option string) (w : window) :
  Forall (λ c, isspace c = true) (list_ascii_of_string (widget_text (input_area w))) →
  given image_data = false →
  given audio = false →
  send_to_gemini None image_data audio w
  = (Ok tt,
     Window (store w) (gemini w) (selected_model w) "Please enter a prompt before sending."
       (output_area w) (input_area w) (transcript_area w) (audio_text w) (dialogs w)
       (logfile w)).
Proof.
  intros Hblank%get_all_blank Himage Haudio.
  unfold send_to_gemini, mbind, Py_bind, gets. by rewrite Hblank, Himage, Haudio.
Qed.

(** After the guard of the Send button. *)
Lemma send_button_run (image_data audio : option string) (w : window) :
  let typed := strip (get_all (input_area w)) in
  nonempty typed || given image_data || given audio = true →
  send_to_gemini None image_data audio w
  = exchange typed image_data audio
      (Window (store w) (gemini w) (selected_model w) (status_var w)
         (TextWidget (widget_text (output_area w) +:+ shown "You" typed) false)
         (delete_all (input_area w)) (transcript_area w) (audio_text w) (dialogs w)
         (logfile w)).
Proof.
  intros typed Hgo. unfold send_to_gemini.
  unfold mbind at 1, Py_bind at 1, gets. fold typed.
  replace (negb (nonempty typed) && negb (given image_data) && negb (given audio))
    with false by (rewrite <- !negb_orb, Hgo; done).
  unfold mbind at 1, Py_bind at 1, on_input at 1, modify.
  unfold mbind at 1, Py_bind at 1. by rewrite add_to_conversation_run.
Qed.




(** X16.  When the model call fails, the Send handler returns normally:
    the failure is shown in a dialog and in the status bar and written to
    the log file.  Nothing is stored and no request reaches the store; the
    text typed stays in the conversation, without an answer, and is gone
    from the prompt area. *)
Theorem send_model_failure (e : exn) (w : window) :
  let typed := strip (get_all (input_area w)) in
  let name := resource_name (model (self (gemini w))) in
  nonempty typed = true →
  widget_normal (input_area w) = true →
  service (gemini w) name [[TextPart typed]] = Raise e →
  ∃ w', send_to_gemini None None None w = (Ok tt, w')
        ∧ store w' = store w
        ∧ widget_text (output_area w') = widget_text (output_area w) +:+ shown "You" typed
        ∧ widget_text (input_area w') = ""
        ∧ dialogs w' = dialogs w ++ [failure_dialog e]
        ∧ status_var w' = "Error: " +:+ str_exn e
        ∧ length (logfile w') = S (length (logfile w)).
Proof.
  intros typed name Htyped Hnormal Hreply.
  rewrite send_button_run by (fold typed; by rewrite Htyped).
  fold typed. set (w0 := Window _ _ _ _ _ _ _ _ _ _).
  unfold exchange. cbn [given].
  unfold mbind at 1, Py_bind at 1. cbn [update_status modify].
  unfold try_except.
  set (w1 := Window _ _ _ "Sending prompt to Gemini..." _ _ _ _ _ _).
  destruct (send_step typed None w1) as [lines Hsend]. cbn [given] in Hsend.
  unfold mbind at 1, Py_bind at 1. rewrite Hsend.
  unfold w1, w0. cbn [store gemini selected_model status_var output_area input_area
                      transcript_area audio_text dialogs logfile].
  fold name. rewrite Hreply.
  set (w2 := Window _ _ _ _ _ _ _ _ _ _).
  destruct (exchange_failed_run e w2) as [line ->].
  eexists. split; [done |]. unfold w2.
  cbn [store gemini output_area input_area status_var dialogs logfile widget_text].
  split_and!; try done.
  - unfold delete_all. by rewrite Hnormal.
  - rewrite length_app. simpl. lia.
Qed.

(** X17.  The answer is shown before it is stored: when the model answers
    and the store fails the first request of the append, the conversation
    shows the text and the answer, the bucket holds neither, and the
    failure is reported in a dialog. *)
Theorem send_store_failure_after_display (e : exn) (r : string) (w : window) :
  let typed := strip (get_all (input_area w)) in
  let name := resource_name (model (self (gemini w))) in
  nonempty typed = true →
  service (gemini w) name [[TextPart typed]] = Ok r →
  next_outage (store w) = Some e →
  ∃ w', send_to_gemini None None None w = (Ok tt, w')
        ∧ objects (store w') = objects (store w)
        ∧ widget_text (output_area w')
          = widget_text (output_area w) +:+ shown "You" typed +:+ shown "Gemini" r
        ∧ dialogs w' = dialogs w ++ [failure_dialog e]
        ∧ status_var w' = "Error: " +:+ str_exn e.
Proof.
  intros typed name Htyped Hreply Hout.
  rewrite send_button_run by (fold typed; by rewrite Htyped).
  fold typed. set (w0 := Window _ _ _ _ _ _ _ _ _ _).
  unfold exchange. cbn [given].
  unfold mbind at 1, Py_bind at 1. cbn [update_status modify].
  unfold try_except.
  set (w1 := Window _ _ _ "Sending prompt to Gemini..." _ _ _ _ _ _).
  destruct (send_step typed None w1) as [lines Hsend]. cbn [given] in Hsend.
  unfold mbind at 1, Py_bind at 1. rewrite Hsend.
  unfold w1, w0. cbn [store gemini selected_model status_var output_area input_area
                      transcript_area audio_text dialogs logfile].
  fold name. rewrite Hreply.
  unfold mbind at 1, Py_bind at 1. rewrite add_to_conversation_run.
  cbn [store gemini selected_model status_var output_area input_area
       transcript_area audio_text dialogs logfile widget_text].
  unfold mbind at 1, Py_bind at 1, on_store at 1. cbn [store].
  rewrite save_interaction_run, Hout.
  set (w2 := Window _ _ _ _ _ _ _ _ _ _).
  destruct (exchange_failed_run e w2) as [line ->].
  eexists. split; [done |]. unfold w2.
  cbn [store gemini output_area input_area status_var dialogs logfile widget_text].
  split_and!; try done. by rewrite string_app_assoc.
Qed.

(** ** Clearing *)

Lemma clear_storage_answered (C : string) (w : gcs) :
  answers (S (length (blob_names (conversation_prefix C) (objects w)))) w = true →
  ∃ w', clear_storage C w = (Ok (len (blob_names (conversation_prefix C) (objects w))), w')
        ∧ ∀ k, startswith (conversation_prefix C) k = true → objects w' !! k = None.
Proof.
  intros [H1 Hans]%answers_S.
  set (blobs := blob_names (conversation_prefix C) (objects w)) in *.
  destruct (delete_loop_ok blobs (answered w)) as (w' & Hloop & _).
  { apply NoDup_blob_names. }
  { by intros k [? _]%elem_of_blob_names. }
  { done. }
  assert (clear_storage C w = (Ok (len blobs), w')) as Hrun.
  { rewrite clear_storage_run, H1. cbv zeta. fold blobs. by rewrite Hloop. }
  exists w'. split; [done |].
  apply (clear_storage_nonneg C w w' (len blobs) Hrun). unfold len. lia.
Qed.

Lemma clear_storage_unanswered (C : string) (w : gcs) :
  answers (S (length (blob_names (conversation_prefix C) (objects w)))) w = false →
  ∃ w', clear_storage C w = (Ok (-1), w').
Proof.
  intros Hans. rewrite clear_storage_run. simpl in Hans.
  destruct (next_outage w) as [e|]; [by eexists |]. cbv zeta.
  destruct (delete_loop_fail _ _ Hans) as (e & w' & ->). by eexists.
Qed.

(** X18.  What the window reports of a clearing: when the store answers
    the listing and one deletion per stored turn, the status bar tells how
    many turns were removed and nothing is left under the conversation;
    otherwise the status bar and a dialog say that the clearing failed,
    without the reason.  In both cases the handler returns normally and
    writes nothing to the log file. *)
Theorem clear_cloud_storage_reports (w : window) :
  let stored := blob_names (conversation_prefix conversation_id) (objects (store w)) in
  ∃ w', clear_cloud_storage w = (Ok tt, w')
        ∧ logfile w' = logfile w
        ∧ if answers (S (length stored)) (store w)
          then status_var w'
               = "Cleared " +:+ format_int (len stored) +:+ " messages from cloud storage"
               ∧ dialogs w' = dialogs w
               ∧ holds_log conversation_id [] (objects (store w'))
          else status_var w' = "Failed to clear cloud storage"
               ∧ dialogs w' = dialogs w ++ [ShowError "Error" "Failed to clear cloud storage"].
Proof.
  intros stored. unfold clear_cloud_storage, try_except.
  unfold mbind at 1, Py_bind at 1, on_store at 1.
  destruct (answers (S (length stored)) (store w)) eqn:Hans.
  - destruct (clear_storage_answered conversation_id (store w) Hans) as (c & -> & Hgone).
    fold stored.
    assert ((0 <=? len stored) = true) as -> by (apply Z.leb_le; unfold len; lia).
    eexists. split; [done |]. cbn [logfile status_var dialogs store objects].
    split_and!; try done. by apply holds_log_empty.
  - destruct (clear_storage_unanswered conversation_id (store w) Hans) as (c & ->).
    eexists. split; [done |]. done.
Qed.

(** The clearing handler on the store. *)
Lemma clear_cloud_storage_store (w : window) :
  ∃ status ds,
    clear_cloud_storage w
    = (Ok tt,
       Window (clear_storage conversation_id (store w)).2 (gemini w) (selected_model w)
         status (output_area w) (input_area w) (transcript_area w) (audio_text w)
         (dialogs w ++ ds) (logfile w)).
Proof.
  unfold clear_cloud_storage, try_except.
  unfold mbind at 1, Py_bind at 1, on_store at 1.
  pose proof (clear_storage_run conversation_id (store w)) as Hrun.
  destruct (clear_storage conversation_id (store w)) as [[n | e] c] eqn:Hc.
  - cbn [snd]. destruct (0 <=? n).
    + eexists _, []. by rewrite app_nil_r.
    + by eexists _, [_].
  - destruct (next_outage (store w)); [done |]. cbv zeta in Hrun.
    by destruct (for_each _ blob_delete _) as [[] ?].
Qed.

Lemma clear_conversation_store (w : window) :
  ∃ ds,
    clear_conversation w
    = (Ok tt,
       Window (clear_storage conversation_id (store w)).2 (gemini w) (selected_model w)
         "Conversation cleared" (TextWidget "" false) (input_area w) (transcript_area w)
         (audio_text w) (dialogs w ++ ds) (logfile w)).
Proof.
  unfold clear_conversation.
  do 3 (unfold mbind at 1, Py_bind at 1, on_output at 1, modify at 1;
        cbn [store gemini selected_model status_var output_area input_area
             transcript_area audio_text dialogs logfile]).
  set (w0 := Window _ _ _ _ _ _ _ _ _ _).
  destruct (clear_cloud_storage_store w0) as (s1 & ds1 & Hrun).
  unfold mbind at 1, Py_bind at 1. rewrite Hrun. by exists ds1.
Qed.

(** X19.  New Conversation clears the store twice, so the second clearing
    makes up for a first one that failed: when the store answers the
    second listing and the deletions of what the first clearing left,
    nothing remains under the conversation.  Whatever the store does, the
    handler returns normally with an empty conversation area, and the
    status bar says that a new conversation has started. *)
Theorem new_conversation_retries (w : window) :
  let c := (clear_storage conversation_id (store w)).2 in
  let left := blob_names (conversation_prefix conversation_id) (objects c) in
  ∃ w', new_conversation w = (Ok tt, w')
        ∧ widget_text (output_area w') = ""
        ∧ status_var w' = "New conversation started"
        ∧ (answers (S (length left)) c = true →
           holds_log conversation_id [] (objects (store w'))).
Proof.
  intros c left. unfold new_conversation.
  destruct (clear_conversation_store w) as (ds1 & Hrun1).
  unfold mbind at 1, Py_bind at 1. rewrite Hrun1. fold c.
  set (w1 := Window c _ _ _ _ _ _ _ _ _).
  destruct (clear_cloud_storage_store w1) as (s2 & ds2 & Hrun2).
  unfold mbind at 1, Py_bind at 1. rewrite Hrun2.
  eexists. split; [done |]. unfold w1.
  cbn [store output_area status_var widget_text].
  split_and!; try done.
  intros Hans. destruct (clear_storage_answered conversation_id c Hans) as (c' & -> & Hgone).
  by apply holds_log_empty.
Qed.

(** ** The model list *)

(** X20.  What the window reports of a change of model.  When the
    constructor accepts the identifier selected, the status bar confirms
    the change and prompts go to the new model.  When it rejects it, the
    status bar and a dialog say that the change failed, without the
    reason; prompts keep going to the former model, although the manager
    already carries the new name.  In both cases the handler returns
    normally and writes nothing to the log file. *)
Theorem on_model_change_reports (w : window) :
  let new_model := selected_model w in
  ∃ w', on_model_change w = (Ok tt, w')
        ∧ logfile w' = logfile w
        ∧ model_name (self (gemini w')) = new_model
        ∧ match rejects (gemini w) new_model with
          | None =>
              status_var w' = "Model changed to " +:+ new_model
              ∧ dialogs w' = dialogs w
              ∧ model (self (gemini w')) = GenerativeModel new_model
          | Some e =>
              status_var w' = "Failed to change model to " +:+ new_model
              ∧ dialogs w'
                = dialogs w ++ [ShowError "Error" ("Failed to change model to " +:+ new_model)]
              ∧ model (self (gemini w')) = model (self (gemini w))
          end.
Proof.
  intros new_model. unfold on_model_change, try_except.
  unfold mbind at 1, Py_bind at 1, gets. fold new_model.
  unfold mbind at 1, Py_bind at 1, on_gemini at 1. rewrite change_model_run.
  destruct (rejects (gemini w) new_model) as [e|]; eexists; (split; [done |]); done.
Qed.

(** ** Every exchange returns *)

Lemma exchange_total (u : string) (image_data audio : option string) (w : window) :
  let prompt := if given audio then default "" audio else u in
  let message := if given image_data
                 then [TextPart prompt; DataPart (default "" image_data) "image/jpeg"]
                 else [TextPart prompt] in
  let name := resource_name (model (self (gemini w))) in
  ∃ w' rest,
    exchange u image_data audio w = (Ok tt, w')
    ∧ wire (gemini w') = wire (gemini w) ++ [Submission name [] message]
    ∧ input_area w' = input_area w
    ∧ transcript_area w' = transcript_area w
    ∧ audio_text w' = audio_text w
    ∧ widget_text (output_area w') = widget_text (output_area w) +:+ rest
    ∧ (widget_normal (output_area w) = false → widget_normal (output_area w') = false).
Proof.
  intros prompt message name.
  unfold exchange. fold prompt.
  unfold mbind at 1, Py_bind at 1. cbn [update_status modify].
  unfold try_except.
  set (w0 := Window _ _ _ "Sending prompt to Gemini..." _ _ _ _ _ _).
  destruct (send_step prompt image_data w0) as [lines Hsend].
  unfold mbind at 1, Py_bind at 1. rewrite Hsend.
  unfold w0. cbn [store gemini selected_model status_var output_area input_area
                  transcript_area audio_text dialogs logfile].
  fold message name.
  destruct (service (gemini w) name [message]) as [r | e].
  - unfold mbind at 1, Py_bind at 1. rewrite add_to_conversation_run.
    cbn [store gemini selected_model status_var output_area input_area
         transcript_area audio_text dialogs logfile].
    unfold mbind at 1, Py_bind at 1, on_store at 1. cbn [store].
    destruct (save_interaction conversation_id "user" prompt (store w)) as [[[] | e] c1].
    + unfold mbind at 1, Py_bind at 1, on_store at 1. cbn [store].
      destruct (save_interaction conversation_id "gemini" r c1) as [[[] | e] c2].
      * eexists _, (shown "Gemini" r). split; [done |]. done.
      * set (w2 := Window _ _ _ _ _ _ _ _ _ _).
        destruct (exchange_failed_run e w2) as [line ->].
        eexists _, (shown "Gemini" r). split; [done |]. done.
    + set (w2 := Window _ _ _ _ _ _ _ _ _ _).
      destruct (exchange_failed_run e w2) as [line ->].
      eexists _, (shown "Gemini" r). split; [done |]. done.
  - set (w2 := Window _ _ _ _ _ _ _ _ _ _).
    destruct (exchange_failed_run e w2) as [line ->].
    eexists _, "". split; [done |].
    unfold w2. cbn [store gemini output_area input_area transcript_area audio_text wire].
    by rewrite string_app_empty_r.
Qed.

(** ** The microphone window *)

Lemma update_transcript_run (text : string) (w : window) :
  update_transcript text w
  = (Ok tt,
     if nonempty text
     then Window (store w) (gemini w) (selected_model w) (status_var w) (output_area w)
            (input_area w) (TextWidget (audio_text w +:+ text +:+ " ") false)
            (audio_text w +:+ text +:+ " ") (dialogs w) (logfile w)
     else w).
Proof.
  unfold update_transcript. destruct (nonempty text); [| done].
  unfold mbind, Py_bind, gets, set_audio_text, on_transcript, modify, config_state,
    delete_all, insert_end.
  cbn [store gemini selected_model status_var output_area input_area transcript_area
       audio_text dialogs logfile widget_text widget_normal].
  done.
Qed.

(** X21.  What the recogniser hears is added to the transcript, each
    result followed by a space, and empty results are skipped; once a
    result was added the transcript area shows the whole transcript.  The
    store, the model and the main window are not touched. *)
Theorem recognised_speech_accumulates (texts : list string) (w : window) :
  ∃ w', for_each texts update_transcript w = (Ok tt, w')
        ∧ audio_text w' = audio_text w +:+ dictated texts
        ∧ widget_text (transcript_area w')
          = (if nonempty (dictated texts) then audio_text w'
             else widget_text (transcript_area w))
        ∧ store w' = store w
        ∧ gemini w' = gemini w
        ∧ output_area w' = output_area w
        ∧ input_area w' = input_area w.
Proof.
  revert w. induction texts as [|text texts IH]; intros w.
  - exists w. split; [done |]. simpl. by rewrite string_app_empty_r.
  - cbn [for_each]. unfold mbind at 1, Py_bind at 1. rewrite update_transcript_run.
    cbn [dictated]. destruct (nonempty text) eqn:Htext.
    + set (w1 := Window _ _ _ _ _ _ _ _ _ _).
      destruct (IH w1) as (w' & -> & Haudio & Hshown & Hs & Hg & Ho & Hi).
      exists w'. split; [done |]. unfold w1 in *.
      cbn [store gemini output_area input_area transcript_area audio_text widget_text] in *.
      split_and!; try done.
      * by rewrite Haudio, !string_app_assoc.
      * rewrite Hshown. destruct (nonempty (dictated texts)) eqn:Hd.
        -- by destruct text.
        -- destruct text; [done |]. simpl. rewrite Haudio.
           destruct (dictated texts); [| done]. by rewrite string_app_empty_r.
    + destruct (IH w) as (w' & -> & Haudio & Hshown & Hrest).
      exists w'. split; [done |]. done.
Qed.

(** X22.  Sending the transcript: the transcript is submitted as it is,
    not stripped, and the prompt area is not touched.  Whether the
    exchange succeeds or fails, the handler returns normally, and the
    transcript is then discarded and its area emptied. *)
Theorem send_microphone_clears_transcript (w : window) :
  let a := audio_text w in
  let name := resource_name (model (self (gemini w))) in
  a ≠ "" →
  ∃ w' rest,
    send_microphone_to_gemini w = (Ok tt, w')
    ∧ wire (gemini w') = wire (gemini w) ++ [Submission name [] [TextPart a]]
    ∧ audio_text w' = ""
    ∧ widget_text (transcript_area w') = ""
    ∧ input_area w' = input_area w
    ∧ widget_text (output_area w')
      = widget_text (output_area w)
        +:+ (newline +:+ "You: [Transcribed audio: " +:+ String dquote "" +:+ a
             +:+ String dquote "" +:+ "]" +:+ newline)
        +:+ rest.
Proof.
  intros a name Ha.
  unfold send_microphone_to_gemini.
  unfold mbind at 1, Py_bind at 1, gets. fold a.
  assert (nonempty a = true) as -> by (by destruct a).
  unfold try_except.
  do 4 (unfold mbind at 1, Py_bind at 1; cbn [update_status on_output modify];
        cbn [store gemini selected_model status_var output_area input_area
             transcript_area audio_text dialogs logfile]).
  unfold mbind at 1, Py_bind at 1. cbn [send_to_gemini].
  set (w0 := Window _ _ _ _ _ _ _ _ _ _).
  destruct (exchange_total a None None w0) as (w1 & rest & -> & Hwire & Hin & Htr & Hau & Hout & _).
  exists (Window (store w1) (gemini w1) (selected_model w1) (status_var w1) (output_area w1)
            (input_area w1) (TextWidget "" false) "" (dialogs w1) (logfile w1)), rest.
  split; [done |].
  cbn [store gemini output_area input_area transcript_area audio_text widget_text].
  unfold w0 in *.
  cbn [store gemini output_area input_area transcript_area audio_text widget_text
       config_state insert_end widget_normal given] in *.
  split_and!; try done.
  by rewrite Hout, !string_app_assoc.
Qed.

(** ** No callback raises *)

Lemma send_to_gemini_safe (user_input image_data audio : option string) :
  safe (send_to_gemini user_input image_data audio).
Proof.
  intros w. destruct user_input as [u|].
  - cbn [send_to_gemini].
    destruct (exchange_total u image_data audio w) as (w' & rest & -> & _ & _ & Htr & _ & _ & Hro).
    exists w'. split; [done |]. intros [Ho Ht]. split; [by apply Hro | by rewrite Htr].
  - destruct (nonempty (strip (get_all (input_area w))) || given image_data || given audio)
      eqn:Hgo.
    + rewrite send_button_run by done.
      set (w0 := Window _ _ _ _ _ _ _ _ _ _).
      destruct (exchange_total (strip (get_all (input_area w))) image_data audio w0)
        as (w' & rest & -> & _ & _ & Htr & _ & _ & Hro).
      exists w'. split; [done |]. intros [Ho Ht]. split; [by apply Hro | by rewrite Htr].
    + apply orb_false_iff in Hgo as [[H1 H2]%orb_false_iff H3].
      unfold send_to_gemini, mbind, Py_bind, gets. rewrite H1, H2, H3.
      eexists. split; [done |]. done.
Qed.

Lemma clear_conversation_safe : safe clear_conversation.
Proof.
  intros w. destruct (clear_conversation_store w) as (ds & ->).
  eexists. split; [done |]. by intros [Ho Ht].
Qed.

Lemma new_conversation_safe : safe new_conversation.
Proof.
  intros w. unfold new_conversation.
  destruct (clear_conversation_store w) as (ds1 & Hrun1).
  unfold mbind at 1, Py_bind at 1. rewrite Hrun1.
  set (w1 := Window _ _ _ _ _ _ _ _ _ _).
  destruct (clear_cloud_storage_store w1) as (s2 & ds2 & Hrun2).
  unfold mbind at 1, Py_bind at 1. rewrite Hrun2.
  eexists. split; [done |]. by intros [Ho Ht].
Qed.

Lemma on_model_change_safe : safe on_model_change.
Proof.
  intros w. unfold on_model_change, try_except.
  unfold mbind at 1, Py_bind at 1, gets.
  unfold mbind at 1, Py_bind at 1, on_gemini at 1. rewrite change_model_run.
  destruct (rejects (gemini w) (selected_model w)) as [e|]; eexists; (split; [done |]); done.
Qed.

Lemma insert_transcript_to_prompt_safe : safe insert_transcript_to_prompt.
Proof.
  intros w. unfold insert_transcript_to_prompt.
  unfold mbind at 1, Py_bind at 1, gets.
  destruct (nonempty (audio_text w)); [| by eexists].
  unfold mbind at 1, Py_bind at 1.
  destruct (nonempty (strip (get_all (input_area w)))); by eexists.
Qed.

Lemma send_microphone_to_gemini_safe : safe send_microphone_to_gemini.
Proof.
  intros w. unfold send_microphone_to_gemini.
  unfold mbind at 1, Py_bind at 1, gets.
  destruct (nonempty (audio_text w)); [| by eexists].
  unfold try_except.
  do 4 (unfold mbind at 1, Py_bind at 1; cbn [update_status on_output modify];
        cbn [store gemini selected_model status_var output_area input_area
             transcript_area audio_text dialogs logfile]).
  unfold mbind at 1, Py_bind at 1. cbn [send_to_gemini].
  set (w0 := Window _ _ _ _ _ _ _ _ _ _).
  destruct (exchange_total (audio_text w) None None w0)
    as (w1 & rest & -> & _ & _ & _ & _ & _ & Hro).
  eexists. split; [done |]. intros _. split; [| done]. by apply Hro.
Qed.

Lemma fire_safe (c : callback) : safe (fire c).
Proof.
  destruct c; cbn [fire].
  - apply send_to_gemini_safe.
  - apply clear_conversation_safe.
  - apply new_conversation_safe.
  - intros w. by eexists.
  - apply on_model_change_safe.
  - intros w. by eexists.
  - intros w. rewrite update_transcript_run. eexists. split; [done |].
    destruct (nonempty text); [| done]. by intros [Ho Ht].
  - apply insert_transcript_to_prompt_safe.
  - apply send_microphone_to_gemini_safe.
Qed.

(** X23.  No callback of the window lets an exception out: whatever the
    store and the model do, every sequence of button presses, menu
    choices, changes of model and results of the recogniser runs to its
    end, and the conversation area and the transcript area are read-only
    again after it. *)
Theorem callbacks_never_raise (cs : list callback) (w : window) :
  read_only w →
  ∃ w', for_each cs fire w = (Ok tt, w') ∧ read_only w'.
Proof.
  revert w. induction cs as [|c cs IH]; intros w Hro.
  - by exists w.
  - cbn [for_each]. destruct (fire_safe c w) as (w1 & Hrun & Hkeep).
    unfold mbind at 1, Py_bind at 1. rewrite Hrun. apply IH. by apply Hkeep.
Qed.

(** ** From the transcript to the prompt *)

Lemma rstrip_blank (b : string) :
  Forall (λ c, isspace c = true) (list_ascii_of_string b) → rstrip b = "".
Proof.
  induction b as [|c b IH]; [done |]. simpl. inversion 1 as [|? ? Hc Hb]; subst.
  by rewrite (IH Hb), Hc.
Qed.

Lemma rstrip_app_blank (s b : string) :
  Forall (λ c, isspace c = true) (list_ascii_of_string b) → rstrip (s +:+ b) = rstrip s.
Proof.
  intros Hb. induction s as [|c s IH]; simpl.
  - by apply rstrip_blank.
  - by rewrite IH.
Qed.

Lemma lstrip_app (s b : string) : lstrip s ≠ "" → lstrip (s +:+ b) = lstrip s +:+ b.
Proof.
  induction s as [|c s IH]; simpl; [done |].
  destruct (isspace c); [apply IH | done].
Qed.

Lemma strip_app_blank (s b : string) :
  Forall (λ c, isspace c = true) (list_ascii_of_string b) → strip (s +:+ b) = strip s.
Proof.
  intros Hb. unfold strip. destruct (lstrip s) as [|c s'] eqn:Hs.
  - assert (lstrip (s +:+ b) = "") as ->; [| done].
    apply lstrip_blank. rewrite list_ascii_of_string_app, Forall_app.
    split; [by apply lstrip_blank | done].
  - rewrite lstrip_app by (by rewrite Hs). rewrite Hs. by apply rstrip_app_blank.
Qed.


(** * Witnesses of the further properties *)

Lemma empty_bucket_log (C : string) : holds_log C [] (objects empty_bucket).
Proof. apply holds_log_empty. intros k _. apply lookup_empty. Qed.

Lemma saved_once_log (C role content : string) :
  holds_log C [(role, content)] (objects (save_interaction C role content empty_bucket).2).
Proof.
  rewrite save_interaction_run. simpl.
  apply (holds_log_append C [] (role, content) ∅), empty_bucket_log.
Qed.

Lemma append_extends_log_witness :
  ∃ w', save_interaction "t1" "gemini" "hi there" one_turn_bucket = (Ok tt, w')
        ∧ holds_logs ["t1"]
            (log_append "t1" ("gemini", "hi there") (λ _, [("user", "hello")]))
            (objects w').
Proof.
  apply (append_extends_log ["t1"]).
  - reflexivity.
  - left.
  - intros C ->%list_elem_of_singleton. apply saved_once_log.
  - reflexivity.
Defined.

Lemma get_reads_log_witness :
  (∀ (i : nat) (t : turn), [("user", "hello")] !! i = Some t →
     get_interaction "t1" (Z.of_nat (S i)) one_turn_bucket
     = (Ok (Some (turn_dict t)), answered (answered one_turn_bucket)))
  ∧ (∀ n : Z, n ≤ 0 ∨ len [("user", "hello")] < n →
       get_interaction "t1" n one_turn_bucket = (Ok None, answered one_turn_bucket)).
Proof.
  apply (get_reads_log "t1" [("user", "hello")] one_turn_bucket).
  - apply saved_once_log.
  - reflexivity.
Defined.

Lemma clear_empties_log_witness :
  1 = len [("user", "hello")]
  ∧ holds_logs ["t1"] (log_clear "t1" (λ _, [("user", "hello")]))
      (objects (clear_storage "t1" one_turn_bucket).2).
Proof.
  apply (clear_empties_log ["t1"] eq_refl "t1" (λ _, [("user", "hello")]) one_turn_bucket).
  - left.
  - intros C ->%list_elem_of_singleton. apply saved_once_log.
  - vm_compute. reflexivity.
  - discriminate.
Defined.

Import Workspace.

Lemma load_history_replays_log_witness :
  ∃ t', load_history (Terminal greeted_bucket picky_vertex [] [])
        = (Return (render [("user", "hello")]), t')
        ∧ objects (cloud t') = objects greeted_bucket
        ∧ wire (ai t') = [] ∧ stdin t' = [].
Proof.
  apply (load_history_replays_log [("user", "hello")]
           (Terminal greeted_bucket picky_vertex [] [])).
  - apply saved_once_log.
  - reflexivity.
Defined.


Lemma chat_round_model_failure_witness :
  ∃ t', chat_round (Terminal greeted_bucket down_vertex ["and you?"] [])
        = (Throw (Library (VertexAIError "503 unavailable")), t')
        ∧ objects (cloud t') = objects greeted_bucket
        ∧ stdin t' = [].
Proof.
  apply (chat_round_model_failure [("user", "hello")]
           (Terminal greeted_bucket down_vertex ["and you?"] []) "and you?" []).
  - apply saved_once_log.
  - reflexivity.
  - discriminate.
  - reflexivity.
  - reflexivity.
Defined.

Lemma chat_round_second_save_failure_witness :
  ∃ e t', chat_round (Terminal flaky_bucket picky_vertex ["hello"] [])
          = (Throw (Library e), t')
          ∧ holds_log conversation_id ([] ++ [("user", "hello")]) (objects (cloud t')).
Proof.
  apply (chat_round_second_save_failure []
           (Terminal flaky_bucket picky_vertex ["hello"] []) "hello" "ok" []).
  - apply holds_log_empty. intros k _. apply lookup_empty.
  - reflexivity.
  - discriminate.
  - reflexivity.
  - reflexivity.
  - reflexivity.
Defined.




Lemma change_model_then_send_witness :
  (change_model "gemini-1.5-flash" picky_vertex).1 = Ok true
  ∧ model_name (self (change_model "gemini-1.5-flash" picky_vertex).2) = "gemini-1.5-flash"
  ∧ wire (send_prompt "hi" (change_model "gemini-1.5-flash" picky_vertex).2).2
    = [] ++ [Submission "gemini-1.5-flash" [] [TextPart "hi"]].
Proof.
  apply (change_model_then_send "gemini-1.5-flash" "hi" picky_vertex).
  reflexivity.
Defined.

Import GeminiXApp.

Lemma send_blank_prompt_ignored_witness :
  send_to_gemini None None (Some "") idle_window
  = (Ok tt,
     Window empty_bucket picky_vertex default_model "Please enter a prompt before sending."
       (TextWidget "" false) (TextWidget " " true) (TextWidget "" false) "" [] []).
Proof.
  apply (send_blank_prompt_ignored None (Some "") idle_window).
  - repeat constructor.
  - reflexivity.
  - reflexivity.
Defined.




Lemma send_model_failure_witness :
  ∃ w', send_to_gemini None None None offline_window = (Ok tt, w')
        ∧ store w' = empty_bucket
        ∧ widget_text (output_area w') = "" +:+ shown "You" "hello"
        ∧ widget_text (input_area w') = ""
        ∧ dialogs w' = [] ++ [ShowError "Error" "An error occurred: 503 unavailable"]
        ∧ status_var w' = "Error: 503 unavailable"
        ∧ length (logfile w') = 1%nat.
Proof.
  apply (send_model_failure (VertexAIError "503 unavailable") offline_window).
  - reflexivity.
  - reflexivity.
  - reflexivity.
Defined.

Lemma send_store_failure_after_display_witness :
  ∃ w', send_to_gemini None None None stormy_window = (Ok tt, w')
        ∧ objects (store w') = objects greeted_bucket
        ∧ widget_text (output_area w') = "" +:+ shown "You" "hello" +:+ shown "Gemini" "ok"
        ∧ dialogs w' = [] ++ [ShowError "Error" "An error occurred: 503 unavailable"]
        ∧ status_var w' = "Error: 503 unavailable".
Proof.
  apply (send_store_failure_after_display (GoogleCloudError "503 unavailable") "ok"
           stormy_window).
  - reflexivity.
  - reflexivity.
  - reflexivity.
Defined.

Lemma new_conversation_retries_witness :
  ∃ w', new_conversation stormy_window = (Ok tt, w')
        ∧ status_var w' = "New conversation started"
        ∧ holds_log conversation_id [] (objects (store w')).
Proof.
  destruct (new_conversation_retries stormy_window) as (w' & Hrun & _ & Hstatus & Hlog).
  exists w'. split; [exact Hrun |]. split; [exact Hstatus |].
  apply Hlog. apply healthy_answers. unfold healthy.
  rewrite clear_storage_run. reflexivity.
Defined.

Lemma send_microphone_clears_transcript_witness :
  ∃ w' rest,
    send_microphone_to_gemini dictating_window = (Ok tt, w')
    ∧ wire (gemini w') = [] ++ [Submission default_model [] [TextPart "hello "]]
    ∧ audio_text w' = ""
    ∧ widget_text (transcript_area w') = ""
    ∧ input_area w' = TextWidget " " true
    ∧ widget_text (output_area w')
      = "" +:+ (newline +:+ "You: [Transcribed audio: " +:+ String dquote "" +:+ "hello "
                +:+ String dquote "" +:+ "]" +:+ newline)
        +:+ rest.
Proof.
  apply (send_microphone_clears_transcript dictating_window). discriminate.
Defined.

Lemma callbacks_never_raise_witness :
  ∃ w', for_each [Recognised "hi"; SendMicrophone; ModelChange; Send; NewConversation] fire
          fresh_window = (Ok tt, w')
        ∧ read_only w'.
Proof.
  apply (callbacks_never_raise
           [Recognised "hi"; SendMicrophone; ModelChange; Send; NewConversation] fresh_window).
  split; reflexivity.
Defined.

